(** * The benchmark driver's job scheduler (data/benchmarks/benchmark.py)

    A shallow embedding of [run_program], [worker], [IPUSemaphore] and the
    part of [main] that seeds the queue and starts the workers, together
    with the properties of the scheduler that the specification states.

    Python integers are [Z].  The two true divisions of [worker] produce
    binary64 floats; they are modelled exactly, as correctly rounded dyadic
    rationals.  Exceptions are values of [exn]; a computation that may raise
    returns [res].  The worker threads are an interleaving of the atomic
    operations on the shared queue and semaphore. *)

From Stdlib Require Import ZArith Lia Bool Ascii.
From stdpp Require Import base numbers list strings pretty gmap.

Local Open Scope Z_scope.

(** ** Exceptions *)

Inductive exn_class :=
| OverflowError
| ZeroDivisionError
| ValueError
| FileExistsError
| FileNotFoundError
| PermissionError
| NotADirectoryError
| IsADirectoryError
| OSError.

(** Every class above derives from Python's [Exception], so an
    [except Exception] clause catches all of them. *)
Record exn := Exn { exn_cls : exn_class; exn_msg : string }.

Inductive res (A : Type) :=
| Ret (a : A)
| Raise (e : exn).
Arguments Ret {A} a.
Arguments Raise {A} e.

Definition res_bind {A B} (x : res A) (f : A -> res B) : res B :=
  match x with
  | Ret a => f a
  | Raise e => Raise e
  end.

(** ** Python floats, as far as [worker] uses them *)

Module PyFloat.

(** A finite binary64 value is the dyadic rational [mant * 2 ^ expo]. *)
Record float := Float { mant : Z; expo : Z }.

(** [n / d] rounded to the nearest integer, ties to even ([0 <= n], [0 < d]). *)
Definition round_half_even (n d : Z) : Z :=
  let q := n / d in
  let r := n mod d in
  if 2 * r <? d then q
  else if d <? 2 * r then q + 1
  else if Z.even q then q else q + 1.

(** The binary exponent [k] of the quotient: [2 ^ k <= a / b < 2 ^ (k + 1)],
    for positive [a] and [b]. *)
Definition quotient_exponent (a b : Z) : Z :=
  let d := Z.log2 a - Z.log2 b in
  let ge := if 0 <=? d then b * 2 ^ d <=? a else b <=? a * 2 ^ (- d) in
  if ge then d else d - 1.

(** The exponent of the unit in the last place of the quotient: 53
    significant bits, and never below the subnormal exponent. *)
Definition ulp_exponent (a b : Z) : Z :=
  Z.max (quotient_exponent a b - 52) (-1074).

(** [a / b] for positive integers: the float nearest to the exact
    quotient, [OverflowError] when that is not finite. *)
Definition true_div_pos (a b : Z) : res float :=
  let e := ulp_exponent a b in
  let m := if 0 <=? e then round_half_even a (b * 2 ^ e)
           else round_half_even (a * 2 ^ (- e)) b in
  if (971 <? e) || ((e =? 971) && (m =? 2 ^ 53))
  then Raise (Exn OverflowError "integer division result too large for a float")
  else Ret (Float m e).

Definition neg (x : float) : float := Float (- mant x) (expo x).

(** Python's [a / b] on two integers. *)
Definition true_div (a b : Z) : res float :=
  if b =? 0 then Raise (Exn ZeroDivisionError "division by zero")
  else if a =? 0 then Ret (Float 0 0)
  else
    res_bind (true_div_pos (Z.abs a) (Z.abs b))
             (fun x => Ret (if Bool.eqb (a <? 0) (b <? 0) then x else neg x)).

(** [math.ceil] of a float: an exact integer. *)
Definition ceil (x : float) : Z :=
  if 0 <=? expo x then mant x * 2 ^ expo x
  else - ((- mant x) / 2 ^ (- expo x)).

End PyFloat.

(** ** Jobs and the quantum a worker asks for *)

Record job := Job {
  config : string;
  matrix : string;
  output_file : string;
  profiling_dir : string;
  numTiles : Z
}.

(** Lines 44 to 46 of [worker]:
    [ipus_needed = math.ceil(numTiles / 1472)] and then
    [ipus_needed = 4 * math.ceil(ipus_needed / 4)]. *)
Definition ipus_needed (numTiles : Z) : res Z :=
  res_bind (PyFloat.true_div numTiles 1472) (fun x =>
  let ipus := PyFloat.ceil x in
  res_bind (PyFloat.true_div ipus 4) (fun y =>
  Ret (4 * PyFloat.ceil y))).

(** The specification's formula, in exact integer arithmetic. *)
Definition ceil_div (a b : Z) : Z := - ((- a) / b).

Definition roundUpToMultiple (x g : Z) : Z := g * ceil_div x g.

Definition quantum_spec (tileCount : Z) : Z :=
  roundUpToMultiple (ceil_div tileCount 1472) 4.

(** The largest tile count up to which both divisions of [worker] are
    exact enough: [1472 * 2 ^ 43]. *)
Definition max_exact_tiles : Z := 1472 * 2 ^ 43.

(** ** The operating system, as far as [run_program] touches it *)

(** What the program did, with what came back. *)
Inductive event :=
| EvMakedirs (path : string) (outcome : res unit)
| EvOpen (path : string) (outcome : res unit)
| EvRun (argv : list string) (outcome : res (Z * string))
| EvPrint (line : string) (outcome : res unit).

(** The directories and regular files that exist, and the history of the
    program's interactions, oldest first.  Paths are compared as written. *)
Record world := World {
  dirs : gset string;
  files : gset string;
  trace : list event
}.

Definition log (ev : event) (w : world) : world :=
  World (dirs w) (files w) (trace w ++ [ev]).

(** A computation reads and changes the world and returns or raises. *)
Definition M (A : Type) : Type := world -> res A * world.

Definition ret {A} (a : A) : M A := fun w => (Ret a, w).

Definition bind {A B} (m : M A) (k : A -> M B) : M B :=
  fun w =>
    match m w with
    | (Ret a, w') => k a w'
    | (Raise e, w') => (Raise e, w')
    end.

(** [try: body except Exception as e: handler e]. *)
Definition try_except {A} (body : M A) (handler : exn -> M A) : M A :=
  fun w =>
    match body w with
    | (Ret a, w') => (Ret a, w')
    | (Raise e, w') => handler e w'
    end.

Notation "x <- c ;; k" := (bind c (fun x => k))
  (at level 62, c at next level, right associativity).
Notation "c ;;; k" := (bind c (fun _ => k))
  (at level 62, right associativity).

(** The events a computation adds to the history. *)
Definition emitted {A} (m : M A) (w : world) : list event :=
  drop (length (trace w)) (trace (snd (m w))).

(** The proper prefixes of a path that end before a separator: the
    intermediate directories that a recursive creation makes. *)
Fixpoint ancestors_from (seen rest : string) : list string :=
  match rest with
  | EmptyString => []
  | String c rest' =>
      (if Ascii.eqb c "/"%char then if String.eqb seen "" then [] else [seen] else [])
      ++ ancestors_from (seen +:+ String c EmptyString) rest'
  end.

Definition ancestors (path : string) : list string := ancestors_from "" path.

(** [os.makedirs(name, exist_ok=exist_ok)], after its documentation: an
    existing directory is an error unless [exist_ok]; a regular file in the
    way, at the path or above it, is always one.  Permissions are not
    modelled, and a call that raises is taken to have created nothing. *)
Definition makedirs_outcome (name : string) (exist_ok : bool) (w : world)
  : res unit :=
  if decide (name ∈ dirs w) then
    if exist_ok then Ret tt else Raise (Exn FileExistsError name)
  else if decide (name ∈ files w) then Raise (Exn FileExistsError name)
  else if existsb (fun p => bool_decide (p ∈ files w)) (ancestors name)
       then Raise (Exn NotADirectoryError name)
  else Ret tt.

Definition makedirs (name : string) (exist_ok : bool) : M unit :=
  fun w =>
    let r := makedirs_outcome name exist_ok w in
    let created : gset string :=
      match r with
      | Ret _ => {[name]} ∪ list_to_set (ancestors name)
      | Raise _ => ∅
      end in
    (r, World (dirs w ∪ created) (files w) (trace w ++ [EvMakedirs name r])).

(** What the program cannot decide: whether opening a file for writing
    fails, how a launched process ends ([Raise] when the launch itself
    fails, otherwise the return code and the captured standard error), and
    whether writing a line to standard output fails.  All three may depend
    on everything that happened before. *)
Record os := OS {
  open_error : string -> world -> option exn;
  subprocess_run : list string -> world -> res (Z * string);
  print_error : string -> world -> option exn
}.

(** Standard output takes every line. *)
Definition prints_succeed (sys : os) : Prop :=
  forall line w, print_error sys line w = None.

(** [str] of a Python integer. *)
Definition str (n : Z) : string := pretty n.

Section RunProgram.

Variable sys : os.

(** [open(path, "w")]: creates or truncates the file. *)
Definition open_w (path : string) : M unit :=
  fun w =>
    let r := if decide (path ∈ dirs w) then Raise (Exn IsADirectoryError path)
             else match open_error sys path w with
                  | Some e => Raise e
                  | None => Ret tt
                  end in
    let made : gset string :=
      match r with Ret _ => {[path]} | Raise _ => ∅ end in
    (r, World (dirs w) (files w ∪ made) (trace w ++ [EvOpen path r])).

(** [print(line)]: the line is written to standard output, or the call
    raises, as it does when the stream is closed or the pipe behind it is
    broken.  Nothing in the program guards a [print]. *)
Definition print (line : string) : M unit :=
  fun w =>
    let r := match print_error sys line w with
             | Some e => Raise e
             | None => Ret tt
             end in
    (r, log (EvPrint line r) w).

(** [subprocess.run(argv, stdout=out_file, stderr=subprocess.PIPE, text=True)]. *)
Definition run_process (argv : list string) : M (Z * string) :=
  fun w =>
    let r := subprocess_run sys argv w in
    (r, log (EvRun argv r) w).

Definition running_line (config matrix : string) (numTiles : Z) : string :=
  "Running " +:+ config +:+ " " +:+ matrix +:+ " with " +:+ str numTiles
    +:+ " tiles".
Definition finished_line (config matrix : string) : string :=
  "Finished " +:+ config +:+ " " +:+ matrix.
Definition error_line (config matrix stderr : string) : string :=
  "Error for " +:+ config +:+ " " +:+ matrix +:+ ": " +:+ stderr.
Definition exception_line (config matrix : string) (e : exn) : string :=
  "Exception for " +:+ config +:+ " " +:+ matrix +:+ ": " +:+ exn_msg e.

(** Lines 9 to 38. *)
Definition run_program
    (config matrix output_file profiling_dir : string) (numTiles : Z)
    (program_path : string) : M bool :=
  profiling_flag <-
    (if String.eqb profiling_dir "" then ret ""
     else makedirs profiling_dir true ;;; ret ("-d" +:+ profiling_dir)) ;;
  try_except
    (open_w output_file ;;;
     print (running_line config matrix numTiles) ;;;
     process <- run_process [program_path; config; matrix;
                             "-t" +:+ str numTiles; profiling_flag] ;;
     print (finished_line config matrix) ;;;
     if negb (fst process =? 0)
     then print (error_line config matrix (snd process)) ;;; ret false
     else ret true)
    (fun e => print (exception_line config matrix e) ;;; ret false).

Definition run_job (j : job) (program_path : string) : M bool :=
  run_program (config j) (matrix j) (output_file j) (profiling_dir j)
              (numTiles j) program_path.

End RunProgram.

(** The argument vectors of the processes launched in a history. *)
Definition launches (evs : list event) : list (list string) :=
  omap (fun ev => match ev with EvRun argv _ => Some argv | _ => None end) evs.

(** ** [IPUSemaphore] *)

(** The lock and the condition variable make [__enter__]'s test and
    subtraction, and [__exit__]'s addition, atomic; the state they guard is
    the two counters. *)
Record IPUSemaphore := Semaphore { total_ipus : Z; available_ipus : Z }.

(** [IPUSemaphore.__init__]. *)
Definition new_semaphore (total : Z) : IPUSemaphore := Semaphore total total.

(** [IPUContext.__enter__], lines 73 to 77: [None] while the caller has to
    keep waiting, otherwise the semaphore after the subtraction. *)
Definition enter (ipus_needed : Z) (s : IPUSemaphore) : option IPUSemaphore :=
  if available_ipus s <? ipus_needed then None
  else Some (Semaphore (total_ipus s) (available_ipus s - ipus_needed)).

(** [IPUContext.__exit__], lines 79 to 82. *)
Definition leave (ipus_needed : Z) (s : IPUSemaphore) : IPUSemaphore :=
  Semaphore (total_ipus s) (available_ipus s + ipus_needed).

(** *** Any number of callers *)

Module Callers.

(** A caller is outside the semaphore, inside [__enter__] asking for [n]
    units, or past [__enter__] and holding [n] units until its [__exit__]. *)
Inductive caller :=
| Idle
| Waiting (n : Z)
| Holding (n : Z).

Record state := State { sem : IPUSemaphore; callers : list caller }.

Inductive op :=
| Call (i : nat) (n : Z)   (* caller [i] enters [with semaphore(n)] *)
| Pass (i : nat)           (* its wait loop ends and it takes its units *)
| Exit (i : nat).          (* it leaves the [with] block *)

Definition step (o : op) (st : state) : option state :=
  match o with
  | Call i n =>
      match callers st !! i with
      | Some Idle => Some (State (sem st) (<[i := Waiting n]> (callers st)))
      | _ => None
      end
  | Pass i =>
      match callers st !! i with
      | Some (Waiting n) =>
          match enter n (sem st) with
          | Some s' => Some (State s' (<[i := Holding n]> (callers st)))
          | None => None
          end
      | _ => None
      end
  | Exit i =>
      match callers st !! i with
      | Some (Holding n) =>
          Some (State (leave n (sem st)) (<[i := Idle]> (callers st)))
      | _ => None
      end
  end.

Fixpoint run (ops : list op) (st : state) : option state :=
  match ops with
  | [] => Some st
  | o :: rest =>
      match step o st with
      | Some st' => run rest st'
      | None => None
      end
  end.

Definition init (total : Z) (ncallers : nat) : state :=
  State (new_semaphore total) (replicate ncallers Idle).

Definition held (c : caller) : Z :=
  match c with Holding n => n | _ => 0 end.

(** The units held by the acquisitions in flight. *)
Definition held_units (cs : list caller) : Z :=
  foldr (fun c acc => held c + acc) 0 cs.

(** No caller asks for a negative number of units. *)
Definition sane (o : op) : Prop :=
  match o with Call _ n => 0 <= n | _ => True end.

Definition sane_caller (c : caller) : Prop :=
  match c with Idle => True | Waiting n | Holding n => 0 <= n end.

(** What every reachable state of the semaphore satisfies. *)
Definition balanced (total : Z) (st : state) : Prop :=
  total_ipus (sem st) = total
  /\ total - available_ipus (sem st) = held_units (callers st)
  /\ 0 <= available_ipus (sem st)
  /\ Forall sane_caller (callers st).

End Callers.

(** ** The workers *)

(** Where a worker thread stands, with the local variables it holds. *)
Inductive pc :=
| AtLoop                                   (* line 42: [task_queue.empty()] *)
| AtGet                                    (* line 43: [task_queue.get()] *)
| AtEnter (j : job) (n : Z)                (* line 47: inside [__enter__] *)
| AtRun (j : job) (n : Z)                  (* line 48: [run_program(...)] *)
| AtPut (j : job) (n : Z)                  (* line 53: [task_queue.put(...)] *)
| AtPrint (j : job) (n : Z)                (* line 54: [print(...)] *)
| AtExit (j : job) (n : Z)                 (* end of the [with] block *)
| AtExitRaising (j : job) (n : Z) (e : exn)  (* the same, on an exception *)
| AtTaskDone (j : job)                     (* line 55: [task_queue.task_done()] *)
| Finished                                 (* the loop is left *)
| Died (e : exn).                          (* an exception ended the thread *)

(** What a step of a worker does to the shared objects. *)
Inductive action :=
| ActEmpty (b : bool)
| ActGet (j : job)
| ActGetRaises (j : job) (e : exn)
| ActAcquire (n : Z)
| ActRun (j : job) (r : res bool)
| ActPut (j : job)
| ActPrint
| ActPrintRaises (e : exn)
| ActRelease (n : Z)
| ActTaskDone
| ActTaskDoneRaises.

(** The queue is a [queue.Queue]: its items, oldest first, and its count of
    unfinished tasks. *)
Record state := State {
  task_queue : list job;
  unfinished_tasks : Z;
  ipu_semaphore : IPUSemaphore;
  os_world : world;
  threads : list pc
}.

Definition rescheduled_line (j : job) : string :=
  "Rescheduled " +:+ config j +:+ " " +:+ matrix j +:+ " with "
    +:+ str (numTiles j) +:+ " tiles".

Section Workers.

Variable sys : os.
Variable program_path : string.

Definition set_thread (i : nat) (p : pc) (s : state) : list pc :=
  <[i := p]> (threads s).

(** One atomic step of thread [i], [None] when it cannot move: it is
    blocked in [get] or [__enter__], or it has ended. *)
Definition step (i : nat) (s : state) : option (action * state) :=
  match threads s !! i with
  | None => None
  | Some AtLoop =>
      match task_queue s with
      | [] => Some (ActEmpty true,
                    State (task_queue s) (unfinished_tasks s) (ipu_semaphore s)
                          (os_world s) (set_thread i Finished s))
      | _ :: _ => Some (ActEmpty false,
                        State (task_queue s) (unfinished_tasks s)
                              (ipu_semaphore s) (os_world s)
                              (set_thread i AtGet s))
      end
  | Some AtGet =>
      match task_queue s with
      | [] => None
      | j :: rest =>
          match ipus_needed (numTiles j) with
          | Ret n => Some (ActGet j,
                           State rest (unfinished_tasks s) (ipu_semaphore s)
                                 (os_world s) (set_thread i (AtEnter j n) s))
          | Raise e => Some (ActGetRaises j e,
                             State rest (unfinished_tasks s) (ipu_semaphore s)
                                   (os_world s) (set_thread i (Died e) s))
          end
      end
  | Some (AtEnter j n) =>
      match enter n (ipu_semaphore s) with
      | None => None
      | Some sem' => Some (ActAcquire n,
                           State (task_queue s) (unfinished_tasks s) sem'
                                 (os_world s) (set_thread i (AtRun j n) s))
      end
  | Some (AtRun j n) =>
      let (r, w') := run_job sys j program_path (os_world s) in
      let next := match r with
                  | Ret true => AtExit j n
                  | Ret false => AtPut j n
                  | Raise e => AtExitRaising j n e
                  end in
      Some (ActRun j r,
            State (task_queue s) (unfinished_tasks s) (ipu_semaphore s) w'
                  (set_thread i next s))
  | Some (AtPut j n) =>
      Some (ActPut j,
            State (task_queue s ++ [j]) (unfinished_tasks s + 1)
                  (ipu_semaphore s) (os_world s) (set_thread i (AtPrint j n) s))
  | Some (AtPrint j n) =>
      let (r, w') := print sys (rescheduled_line j) (os_world s) in
      match r with
      | Ret _ =>
          Some (ActPrint,
                State (task_queue s) (unfinished_tasks s) (ipu_semaphore s) w'
                      (set_thread i (AtExit j n) s))
      | Raise e =>
          Some (ActPrintRaises e,
                State (task_queue s) (unfinished_tasks s) (ipu_semaphore s) w'
                      (set_thread i (AtExitRaising j n e) s))
      end
  | Some (AtExit j n) =>
      Some (ActRelease n,
            State (task_queue s) (unfinished_tasks s)
                  (leave n (ipu_semaphore s)) (os_world s)
                  (set_thread i (AtTaskDone j) s))
  | Some (AtExitRaising j n e) =>
      Some (ActRelease n,
            State (task_queue s) (unfinished_tasks s)
                  (leave n (ipu_semaphore s)) (os_world s)
                  (set_thread i (Died e) s))
  | Some (AtTaskDone j) =>
      if unfinished_tasks s - 1 <? 0
      then Some (ActTaskDoneRaises,
                 State (task_queue s) (unfinished_tasks s) (ipu_semaphore s)
                       (os_world s)
                       (set_thread i
                          (Died (Exn ValueError "task_done() called too many times")) s))
      else Some (ActTaskDone,
                 State (task_queue s) (unfinished_tasks s - 1)
                       (ipu_semaphore s) (os_world s) (set_thread i AtLoop s))
  | Some Finished => None
  | Some (Died _) => None
  end.

(** A schedule names the thread that moves next; the run gives the
    actions taken, in order, each with its thread. *)
Fixpoint exec (sched : list nat) (s : state)
  : option (list (nat * action) * state) :=
  match sched with
  | [] => Some ([], s)
  | i :: rest =>
      match step i s with
      | None => None
      | Some (a, s') =>
          match exec rest s' with
          | None => None
          | Some (acts, s'') => Some ((i, a) :: acts, s'')
          end
      end
  end.


End Workers.

(** [main], lines 120 to 153, from the job list on: the queue holds every
    job, the semaphore is fresh, and there is one worker per IPU. *)
Definition start (jobs : list job) (total : Z) (w : world) : state :=
  State jobs (Z.of_nat (length jobs)) (new_semaphore total) w
        (replicate (Z.to_nat total) AtLoop).

(** [task_queue.join()], line 155, returns once no task is unfinished. *)
Definition join_returns (s : state) : bool := unfinished_tasks s =? 0.

(** A thread between its [get] and the end of its [task_done] has an
    attempt that is not completed; a thread that died took a job and never
    reports it done. *)
Definition attempt (p : pc) : Z :=
  match p with
  | AtLoop | AtGet | Finished => 0
  | _ => 1
  end.

Definition in_flight (ts : list pc) : Z :=
  foldr (fun p acc => attempt p + acc) 0 ts.

Definition count_actions (f : action -> bool) (acts : list (nat * action)) : Z :=
  Z.of_nat (length (filter (fun x => f (snd x) = true) acts)).

Definition is_put (a : action) : bool :=
  match a with ActPut _ => true | _ => false end.
Definition is_task_done (a : action) : bool :=
  match a with ActTaskDone => true | _ => false end.



(** The same, read off where the thread stands. *)
Definition inside_with (p : pc) : option Z :=
  match p with
  | AtRun _ n | AtPut _ n | AtPrint _ n | AtExit _ n | AtExitRaising _ n _ =>
      Some n
  | _ => None
  end.



(** The count of unfinished tasks is what was put minus what was done,
    and it counts exactly the queued jobs and the attempts in flight. *)
Definition accounted (seeded : Z) (acts : list (nat * action)) (s : state)
  : Prop :=
  unfinished_tasks s
  = seeded + count_actions is_put acts - count_actions is_task_done acts
  /\ unfinished_tasks s
     = Z.of_nat (length (task_queue s)) + in_flight (threads s).

(** ** Systems, worlds and jobs to run the model on *)

(** A system in which every file opens and every process ends with the
    same return code and standard error. *)
Definition os_exiting (returncode : Z) (stderr : string) : os :=
  OS (fun _ _ => None) (fun _ _ => Ret (returncode, stderr)) (fun _ _ => None).

(** A system whose processes fail [k] times and succeed from then on. *)
Definition os_failing_first (k : nat) : os :=
  OS (fun _ _ => None)
     (fun _ w => if Nat.ltb (length (launches (trace w))) k
                 then Ret (1, "failed") else Ret (0, ""))
     (fun _ _ => None).

(** A system in which no file can be opened for writing. *)
Definition os_unwritable : os :=
  OS (fun path _ => Some (Exn PermissionError path)) (fun _ _ => Ret (0, ""))
     (fun _ _ => None).

(** A system whose standard output is closed: every [print] raises. *)
Definition os_closed_stdout (returncode : Z) (stderr : string) : os :=
  OS (fun _ _ => None) (fun _ _ => Ret (returncode, stderr))
     (fun _ _ => Some (Exn ValueError "I/O operation on closed file")).


(** A world with nothing in it, and one in which [path] is a regular file. *)
Definition empty_world : world := World ∅ ∅ [].
Definition world_with_file (path : string) : world := World ∅ {[path]} [].

Definition hook_job : job := Job "ir.jsonc" "-mHook.mtx" "out.txt" "" 5888.

Definition three_callers_of_eight : list Callers.op :=
  [Callers.Call 0 8; Callers.Call 1 8; Callers.Call 2 8; Callers.Pass 0;
   Callers.Pass 1; Callers.Exit 0; Callers.Pass 2].

Definition oversized_call : list Callers.op :=
  [Callers.Call 0 20; Callers.Call 1 8; Callers.Pass 1].

(** ** Further bookkeeping on the workers *)

(** A sum over the threads. *)
Definition count_pcs (f : pc -> Z) (ts : list pc) : Z :=
  foldr (fun p acc => f p + acc) 0 ts.

(** The units a thread holds where it stands, and the units held by all. *)
Definition units_of (p : pc) : Z := default 0 (inside_with p).

Definition units_inside (ts : list pc) : Z := count_pcs units_of ts.

(** The job a thread has taken from the queue and not yet reported done. *)
Definition job_of_pc (p : pc) : option job :=
  match p with
  | AtEnter j _ | AtRun j _ | AtPut j _ | AtPrint j _ | AtExit j _
  | AtExitRaising j _ _ | AtTaskDone j => Some j
  | _ => None
  end.

(** The job and the quantum a thread computed for it. *)
Definition quantum_of_pc (p : pc) : option (job * Z) :=
  match p with
  | AtEnter j n | AtRun j n | AtPut j n | AtPrint j n | AtExit j n
  | AtExitRaising j n _ => Some (j, n)
  | _ => None
  end.

Definition job_of_action (a : action) : option job :=
  match a with
  | ActGet j | ActGetRaises j _ | ActRun j _ | ActPut j => Some j
  | _ => None
  end.

(** A thread holds one of the seeded jobs, with the quantum [worker]
    computes for it. *)
Definition pc_sound (jobs : list job) (p : pc) : Prop :=
  (forall j, job_of_pc p = Some j -> j ∈ jobs)
  /\ (forall j n, quantum_of_pc p = Some (j, n) ->
                  ipus_needed (numTiles j) = Ret n).

(** Only seeded jobs are around, and the units not available are the ones
    the threads inside the [with] block hold. *)
Definition sound (jobs : list job) (total : Z) (acts : list (nat * action))
    (s : state) : Prop :=
  Forall (fun j => j ∈ jobs) (task_queue s)
  /\ Forall (pc_sound jobs) (threads s)
  /\ Forall (fun x => forall j, job_of_action (snd x) = Some j -> j ∈ jobs) acts
  /\ total_ipus (ipu_semaphore s) = total
  /\ available_ipus (ipu_semaphore s) + units_inside (threads s) = total
  /\ (0 <= total -> Forall (fun j => 0 <= numTiles j) jobs ->
      0 <= available_ipus (ipu_semaphore s)).

(** Nothing is queued, nothing is unfinished and no thread has an attempt. *)
Definition drained (s : state) : Prop :=
  task_queue s = [] /\ unfinished_tasks s = 0 /\ in_flight (threads s) = 0.

(** [thread.join()] for every thread, lines 157 to 158, returns once each
    thread has ended, by leaving its loop or by an exception. *)
Definition ended (p : pc) : bool :=
  match p with Finished | Died _ => true | _ => false end.

Definition main_returns (s : state) : bool :=
  join_returns s && forallb ended (threads s).

(** Counting the jobs of a class [P]: in a list, among the actions, and
    among the threads by where they stand. *)
Definition count_jobs (P : job -> bool) (js : list job) : Z :=
  Z.of_nat (length (filter (fun j => P j = true) js)).

Definition is_get (P : job -> bool) (a : action) : bool :=
  match a with ActGet j => P j | _ => false end.
Definition is_get_raises (P : job -> bool) (a : action) : bool :=
  match a with ActGetRaises j _ => P j | _ => false end.
Definition is_run_true (P : job -> bool) (a : action) : bool :=
  match a with ActRun j (Ret true) => P j | _ => false end.
Definition is_run_false (P : job -> bool) (a : action) : bool :=
  match a with ActRun j (Ret false) => P j | _ => false end.
Definition is_run_raises (P : job -> bool) (a : action) : bool :=
  match a with ActRun j (Raise _) => P j | _ => false end.
Definition is_put_of (P : job -> bool) (a : action) : bool :=
  match a with ActPut j => P j | _ => false end.

Definition before_run (P : job -> bool) (p : pc) : Z :=
  match p with
  | AtEnter j _ | AtRun j _ => if P j then 1 else 0
  | _ => 0
  end.
Definition before_put (P : job -> bool) (p : pc) : Z :=
  match p with AtPut j _ => if P j then 1 else 0 | _ => 0 end.
Definition dying (p : pc) : Z :=
  match p with AtExitRaising _ _ _ | Died _ => 1 | _ => 0 end.

(** How the jobs of class [P] moved: from the queue to the threads, through
    the runs, and back to the queue after a failure. *)
Definition tallied (P : job -> bool) (seeded : Z) (acts : list (nat * action))
    (s : state) : Prop :=
  seeded + count_actions (is_put_of P) acts
  = count_jobs P (task_queue s) + count_actions (is_get P) acts
    + count_actions (is_get_raises P) acts
  /\ count_actions (is_get P) acts
     = count_actions (is_run_true P) acts + count_actions (is_run_false P) acts
       + count_actions (is_run_raises P) acts
       + count_pcs (before_run P) (threads s)
  /\ count_actions (is_run_false P) acts
     = count_actions (is_put_of P) acts + count_pcs (before_put P) (threads s)
  /\ count_actions (is_get_raises P) acts + count_actions (is_run_raises P) acts
     <= count_pcs dying (threads s).

(** While the queue holds a job, some thread has not left its loop. *)
Definition attended (s : state) : Prop :=
  task_queue s <> [] -> exists i p, threads s !! i = Some p /\ p <> Finished.

(** A job whose profiling directory cannot be made where a regular file
    [prof] exists, and a job that asks for more units than 16. *)
Definition blocked_profiling_job : job :=
  Job "spmv.jsonc" "-mHook.mtx" "out.txt" "prof" 5888.

Definition oversized_job : job :=
  Job "ir.jsonc" "-mHook.mtx" "big.txt" "" 29440.

(** ** Further bookkeeping on the semaphore's callers *)

(** The units that are not available are the units held. *)
Definition conserved (total : Z) (st : Callers.state) : Prop :=
  total_ipus (Callers.sem st) = total
  /\ total - available_ipus (Callers.sem st)
     = Callers.held_units (Callers.callers st).

Definition waiting_then_holding : list Callers.op :=
  [Callers.Call 0 8; Callers.Call 1 12; Callers.Pass 0].

(** ** Bounds on the tile count *)

(** Below [2 ^ 1024] both divisions of [worker] return; from
    [1472 * 2 ^ 1024] on the first one overflows. *)
Definition float_range : Z := 2 ^ 1024.

Definition overflowing_tiles : Z := 1472 * 2 ^ 1024.

(** A job with an absurd tile count, to run the model on. *)
Definition overflowing_job : job :=
  Job "ir.jsonc" "-mHook.mtx" "huge.txt" "" overflowing_tiles.

(** ** Python strings and lists, as far as [main] uses them *)

Module PyStr.

(** [s.startswith(p)]. *)
Fixpoint startswith (s p : string) : bool :=
  match p with
  | EmptyString => true
  | String c p' =>
      match s with
      | EmptyString => false
      | String d s' => Ascii.eqb d c && startswith s' p'
      end
  end.

(** [c in chars], for a character. *)
Fixpoint has_char (c : ascii) (chars : string) : bool :=
  match chars with
  | EmptyString => false
  | String d rest => Ascii.eqb c d || has_char c rest
  end.

(** [s.lstrip(chars)]: the leading characters that occur in [chars] are
    dropped, whatever their order. *)
Fixpoint lstrip (chars s : string) : string :=
  match s with
  | EmptyString => EmptyString
  | String c rest => if has_char c chars then lstrip chars rest else s
  end.

(** [s.split(sep)] for a separator of one character: never empty, and
    empty fields are kept. *)
Fixpoint split (sep : ascii) (s : string) : list string :=
  match s with
  | EmptyString => [EmptyString]
  | String c rest =>
      if Ascii.eqb c sep then EmptyString :: split sep rest
      else match split sep rest with
           | [] => [String c EmptyString]
           | field :: fields => String c field :: fields
           end
  end.

(** The text before the first [c], all of [s] when there is none. *)
Fixpoint before (c : ascii) (s : string) : string :=
  match s with
  | EmptyString => EmptyString
  | String d rest => if Ascii.eqb d c then EmptyString else String d (before c rest)
  end.

End PyStr.

(** ** [main]: seeding the queue *)

(** The two exceptions the naming of the jobs can raise. *)
Inductive main_error :=
| UnboundLocalError (name : string)
| IndexError.

Inductive outcome (A : Type) :=
| Done (a : A)
| Fails (e : main_error).
Arguments Done {A} a.
Arguments Fails {A} e.

Definition and_then {A B} (x : outcome A) (f : A -> outcome B) : outcome B :=
  match x with
  | Done a => f a
  | Fails e => Fails e
  end.

(** [l[i]] and [l[-1]]. *)
Definition index (l : list string) (i : nat) : outcome string :=
  match l !! i with
  | Some x => Done x
  | None => Fails IndexError
  end.

Definition index_last (l : list string) : outcome string :=
  match last l with
  | Some x => Done x
  | None => Fails IndexError
  end.

(** Lines 128 to 132: [matrix_name] after the two tests; a specification
    with neither prefix leaves the variable as the iteration before left it. *)
Definition matrix_name_after (prev : option string) (matrix : string)
  : outcome (option string) :=
  if PyStr.startswith matrix "-m" then
    and_then (index_last (PyStr.split "/" (PyStr.lstrip "-m" matrix)))
      (fun file =>
    and_then (index (PyStr.split "." file) 0) (fun name =>
    Done (Some name)))
  else if PyStr.startswith matrix "-p" then
    let poissonConfig := PyStr.split "," (PyStr.lstrip "-p" matrix) in
    and_then (index poissonConfig 0) (fun nx =>
    and_then (index poissonConfig 1) (fun ny =>
    and_then (index poissonConfig 2) (fun nz =>
    Done (Some ("poisson_" +:+ nx +:+ "x" +:+ ny +:+ "x" +:+ nz)))))
  else Done prev.

(** Reading the local variable [matrix_name]. *)
Definition read_matrix_name (name : option string) : outcome string :=
  match name with
  | Some n => Done n
  | None => Fails (UnboundLocalError "matrix_name")
  end.

(** The two f-strings, lines 135 and 137. *)
Definition profiling_dir_for (log_dir config_name matrix_name : string)
    (numTiles : Z) : string :=
  log_dir +:+ "/profiling/" +:+ config_name +:+ "_" +:+ matrix_name +:+ "_"
    +:+ str numTiles +:+ "tiles".

Definition output_file_for (log_dir config_name matrix_name : string)
    (numTiles : Z) : string :=
  log_dir +:+ "/" +:+ config_name +:+ "_" +:+ matrix_name +:+ "_"
    +:+ str numTiles +:+ "tiles.txt".

(** The body of the innermost loop, lines 127 to 139, on the variable
    [matrix_name] and the items put on the queue so far. *)
Definition seed_one (log_dir : string) (require_profiling : list string)
    (numTiles : Z) (config matrix : string) (st : option string * list job)
  : outcome (option string * list job) :=
  and_then (index (PyStr.split "." config) 0) (fun config_name =>
  and_then (matrix_name_after (fst st) matrix) (fun name =>
  and_then (if bool_decide (config ∈ require_profiling)
            then and_then (read_matrix_name name) (fun matrix_name =>
                 Done (profiling_dir_for log_dir config_name matrix_name
                                         numTiles))
            else Done "") (fun profiling_dir =>
  and_then (read_matrix_name name) (fun matrix_name =>
  let output_file := output_file_for log_dir config_name matrix_name numTiles in
  Done (name,
        snd st ++ [Job config matrix output_file profiling_dir numTiles]))))).

(** [for x in l: body]. *)
Fixpoint for_each {A S} (body : A -> S -> outcome S) (l : list A) (st : S)
  : outcome S :=
  match l with
  | [] => Done st
  | x :: rest =>
      match body x st with
      | Done st' => for_each body rest st'
      | Fails e => Fails e
      end
  end.

(** Lines 120 to 139: the queue [main] seeds, from its lists. *)
Definition seed_queue (log_dir : string) (require_profiling : list string)
    (tiles : list Z) (config_files matrices : list string)
  : outcome (option string * list job) :=
  for_each (fun numTiles =>
    for_each (fun config =>
      for_each (seed_one log_dir require_profiling numTiles config) matrices)
      config_files)
    tiles (None, []).

(** The lists as [main] has them, lines 86 to 118. *)
Definition main_log_dir : string := "logs/convergence_plot/".
Definition main_config_files : list string :=
  ["ir_pbicgstab_ilu0_verbose_nomixedprecision.jsonc"].
Definition main_require_profiling : list string := ["spmv.jsonc"; "ilu0.jsonc"].
Definition main_matrices : list string :=
  ["-m../matrices/Hook_1498/Hook_1498.mtx";
   "-m../matrices/G3_circuit/G3_circuit.mtx";
   "-m../matrices/Geo_1438/Geo_1438.mtx";
   "-m../matrices/af_shell7/af_shell7.mtx"].
Definition main_tiles : list Z := [5888].
Definition main_program_path : string :=
  "../../build/applications/benchmark/benchmark".
Definition main_total_ipus : Z := 16.

(** A matrix specification [main] can name: a file, or a Poisson problem
    with its three sizes. *)
Definition named (matrix : string) : Prop :=
  PyStr.startswith matrix "-m" = true
  \/ (PyStr.startswith matrix "-p" = true
      /\ (3 <= length (PyStr.split "," (PyStr.lstrip "-p" matrix)))%nat).

(** What identifies a job: tile count, configuration and matrix. *)
Definition job_key (j : job) : Z * string * string :=
  (numTiles j, config j, matrix j).

(** The jobs of the three nested loops, in the order of the loops. *)
Definition expected_keys (tiles : list Z) (config_files matrices : list string)
  : list (Z * string * string) :=
  flat_map (fun numTiles =>
    flat_map (fun config => map (fun matrix => (numTiles, config, matrix))
                                matrices)
             config_files)
    tiles.

(** ** Workers that end by an exception *)

(** The actions in which an exception leaves [worker]'s own code or
    [run_program]. *)
Definition raising (a : action) : bool :=
  match a with
  | ActGetRaises _ _ | ActRun _ (Raise _) | ActPrintRaises _
  | ActTaskDoneRaises => true
  | _ => false
  end.

(** A job without a profiling directory and with a tile count the two
    divisions can handle. *)
Definition well_formed (j : job) : Prop :=
  profiling_dir j = "" /\ 1 <= numTiles j < float_range.

(** Nothing has raised so far, no thread is dead or about to die. *)
Definition alive (jobs : list job) (total : Z) (acts : list (nat * action))
    (s : state) : Prop :=
  sound jobs total acts s
  /\ accounted (Z.of_nat (length jobs)) acts s
  /\ Forall (fun p => dying p = 0) (threads s)
  /\ Forall (fun x => raising (snd x) = false) acts.

(** [task_done] has not raised so far. *)
Definition task_done_sound (seeded : Z) (acts : list (nat * action))
    (s : state) : Prop :=
  accounted seeded acts s
  /\ Forall (fun x => snd x <> ActTaskDoneRaises) acts.

(** A seeded job comes from the three lists, and has a profiling directory
    exactly when its configuration is one that requires profiling. *)
Definition seeded_from (require_profiling : list string) (tiles : list Z)
    (config_files matrices : list string) (j : job) : Prop :=
  numTiles j ∈ tiles /\ config j ∈ config_files /\ matrix j ∈ matrices
  /\ (profiling_dir j = "" <-> config j ∉ require_profiling).

(** [main] up to the start of the threads: the queue is seeded, then the
    semaphore and the workers are made. *)
Definition main_start (log_dir : string) (require_profiling : list string)
    (tiles : list Z) (config_files matrices : list string) (total : Z)
    (w : world) : outcome state :=
  and_then (seed_queue log_dir require_profiling tiles config_files matrices)
    (fun st => Done (start (snd st) total w)).

(** ** Workers that cannot move *)

(** The quantum of the job, where it can be computed, is within the total. *)
Definition fits (total : Z) (j : job) : Prop :=
  forall q, ipus_needed (numTiles j) = Ret q -> q <= total.

(** A thread inside the [with] block counts for one running job. *)
Definition inside (p : pc) : Z :=
  match inside_with p with
  | Some _ => 1
  | None => 0
  end.

(** ** Tactics *)

(** Case analysis on everything [run_program] branches on, leaving the
    emitted events as an explicit list. *)
Ltac run_program_cases :=
  unfold run_job, run_program, emitted, bind, try_except, ret, makedirs,
    open_w, run_process, print, log;
  cbn [fst snd trace dirs files];
  repeat match goal with
    | |- context [String.eqb ?d ""] => destruct (String.eqb d "") eqn:?
    | |- context [makedirs_outcome ?a ?b ?w] =>
        destruct (makedirs_outcome a b w) eqn:?
    | |- context [decide (?p ∈ ?s)] => destruct (decide (p ∈ s))
    | |- context [open_error ?s ?p ?w] => destruct (open_error s p w) eqn:?
    | |- context [subprocess_run ?s ?a ?w] =>
        destruct (subprocess_run s a w) as [[? ?] | ?] eqn:?
    | |- context [print_error ?s ?l ?w] =>
        destruct (print_error s l w) eqn:?
    | |- context [?rc =? 0] => destruct (Z.eqb_spec rc 0)
    | _ => progress cbn [fst snd trace dirs files negb]
    end;
  rewrite <- ?app_assoc, ?drop_app_length; cbn [app].

Ltac list_membership :=
  repeat match goal with
    | H : _ ∈ _ :: _ |- _ => apply elem_of_cons in H; destruct H
    | H : _ ∈ [] |- _ => apply elem_of_nil in H; destruct H
    | H : ex _ |- _ => destruct H
    | H : _ /\ _ |- _ => destruct H
    end;
  simplify_eq.

(** The cases in which a [print] raised, when standard output takes every
    line. *)
Ltac prints_succeed_cases H :=
  repeat match goal with
    | Hp : print_error _ _ _ = Some _ |- _ =>
        rewrite H in Hp; discriminate Hp
    end.

Ltac in_list :=
  repeat first [apply list_elem_of_here | apply list_elem_of_further].

(** Case analysis on a step that was taken: where the thread stood and
    which branch it followed. *)
Ltac step_inv H :=
  unfold step, set_thread in H;
  match type of H with
  | context [threads ?s !! ?i] =>
      let Hpc := fresh "Hpc" in
      destruct (threads s !! i) as [[] |] eqn:Hpc
  end;
  try discriminate H;
  repeat match type of H with
    | context [match task_queue ?s with _ => _ end] =>
        destruct (task_queue s) eqn:?
    | context [ipus_needed ?n] => destruct (ipus_needed n) eqn:?
    | context [enter ?n ?sm] => destruct (enter n sm) eqn:?
    | context [run_job ?a ?b ?c ?d] =>
        destruct (run_job a b c d) as [[[] |] ?] eqn:?
    | context [print ?a ?b ?c] =>
        destruct (print a b c) as [[] ?] eqn:?
    | context [?a <? ?b] => destruct (Z.ltb_spec a b)
    end;
  try discriminate H;
  injection H as <- <-.

(** * Proofs *)

(** ** Arithmetic of the two roundings *)

Section QuantumArithmetic.

Import PyFloat.

(** [ceil_div a b] is the only [c] with [b * (c - 1) < a <= b * c]. *)
Lemma ceil_div_unique (a b c : Z) :
  0 < b -> b * (c - 1) < a <= b * c -> ceil_div a b = c.
Proof.
  intros Hb Hc. unfold ceil_div.
  assert (Hq : - c = (- a) / b).
  { apply (Z.div_unique_pos (- a) b (- c) (b * c - a)); lia. }
  lia.
Qed.

Lemma ceil_div_bounds (a b : Z) :
  0 < b -> b * (ceil_div a b - 1) < a <= b * ceil_div a b.
Proof.
  intros Hb. unfold ceil_div.
  pose proof (Z.div_mod (- a) b ltac:(lia)) as Hdm.
  pose proof (Z.mod_pos_bound (- a) b Hb) as Hr.
  nia.
Qed.

Lemma round_half_even_bounds (n d : Z) :
  n / d <= round_half_even n d <= n / d + 1.
Proof.
  unfold round_half_even.
  destruct (2 * (n mod d) <? d); [lia |].
  destruct (d <? 2 * (n mod d)); [lia |].
  destruct (Z.even (n / d)); lia.
Qed.

Lemma round_half_even_above_half (n d : Z) :
  d < 2 * (n mod d) -> round_half_even n d = n / d + 1.
Proof.
  intros H. unfold round_half_even.
  destruct (Z.ltb_spec (2 * (n mod d)) d); [lia |].
  destruct (Z.ltb_spec d (2 * (n mod d))); [reflexivity | lia].
Qed.

Lemma round_half_even_exact (n d : Z) :
  0 < d -> n mod d = 0 -> round_half_even n d = n / d.
Proof.
  intros Hd H. unfold round_half_even. rewrite H.
  destruct (Z.ltb_spec (2 * 0) d); [reflexivity | lia].
Qed.

(** Rounding the quotient to a grid of step [2 ^ - s] does not move its
    ceiling, as long as the grid is finer than [2 / b] or the quotient is
    an integer. *)
Lemma ceil_of_rounded_quotient (a b s : Z) :
  0 < a -> 0 < b -> 1 <= s ->
  a mod b = 0 \/ b < 2 ^ (s + 1) ->
  - ((- round_half_even (a * 2 ^ s) b) / 2 ^ s) = ceil_div a b.
Proof.
  intros Ha Hb Hs Hfine.
  assert (HP : 2 <= 2 ^ s).
  { change 2 with (2 ^ 1) at 1. apply Z.pow_le_mono_r; lia. }
  assert (HP2 : 2 ^ (s + 1) = 2 * 2 ^ s) by (rewrite Z.pow_add_r; lia).
  set (P := 2 ^ s) in *.
  pose proof (Z.div_mod a b ltac:(lia)) as Hdm.
  pose proof (Z.mod_pos_bound a b Hb) as Hr.
  set (k := a / b) in *. set (r := a mod b) in *.
  pose proof (Z.div_mod (a * P) b ltac:(lia)) as Hdm'.
  pose proof (Z.mod_pos_bound (a * P) b Hb) as Hr'.
  pose proof (round_half_even_bounds (a * P) b) as Hrnd.
  fold (ceil_div (round_half_even (a * P) b) P).
  destruct (Z.eq_dec r 0) as [Hr0 | Hr0].
  - (* the quotient is the integer [k] *)
    assert (Hq : k * P = a * P / b).
    { apply (Z.div_unique_pos (a * P) b (k * P) 0); nia. }
    assert (Hm : (a * P) mod b = 0).
    { rewrite Z.mod_eq by lia. rewrite <- Hq. nia. }
    rewrite (round_half_even_exact _ _ Hb Hm), <- Hq.
    rewrite (ceil_div_unique (k * P) P k) by nia.
    symmetry. apply ceil_div_unique; [lia | nia].
  - (* the quotient lies strictly between [k] and [k + 1] *)
    destruct Hfine as [Hz | Hfine]; [lia |].
    assert (Hqlo : k * P <= a * P / b) by (apply Z.div_le_lower_bound; nia).
    assert (Hqhi : a * P / b < k * P + P) by (apply Z.div_lt_upper_bound; nia).
    assert (Hlo : k * P < round_half_even (a * P) b).
    { destruct (Z.eq_dec (a * P / b) (k * P)) as [He | He]; [| lia].
      rewrite round_half_even_above_half; [lia |].
      rewrite Z.mod_eq by lia. rewrite He. nia. }
    rewrite (ceil_div_unique (round_half_even (a * P) b) P (k + 1)) by nia.
    symmetry. apply ceil_div_unique; [lia | nia].
Qed.

(** When the unit in the last place is below one, the division does not
    overflow and its ceiling is the exact one. *)
Lemma ceil_true_div (a b : Z) :
  0 < a -> 0 < b ->
  ulp_exponent a b <= -1 ->
  a mod b = 0 \/ b < 2 ^ (1 - ulp_exponent a b) ->
  exists x, true_div a b = Ret x /\ ceil x = ceil_div a b.
Proof.
  intros Ha Hb He Hfine.
  unfold true_div, true_div_pos.
  destruct (Z.eqb_spec b 0); [lia |].
  destruct (Z.eqb_spec a 0); [lia |].
  rewrite (Z.abs_eq a), (Z.abs_eq b) by lia.
  set (e := ulp_exponent a b) in *.
  destruct (Z.leb_spec 0 e); [lia |].
  destruct (Z.ltb_spec 971 e); [lia |].
  destruct (Z.eqb_spec e 971); [lia |].
  cbn [orb andb res_bind].
  destruct (Z.ltb_spec a 0); [lia |].
  destruct (Z.ltb_spec b 0); [lia |].
  cbn [Bool.eqb].
  eexists. split; [reflexivity |].
  unfold ceil. cbn [expo mant].
  destruct (Z.leb_spec 0 e); [lia |].
  apply ceil_of_rounded_quotient; try lia.
  replace (- e + 1) with (1 - e) by lia. exact Hfine.
Qed.

Lemma quotient_exponent_le (a b : Z) :
  quotient_exponent a b <= Z.log2 a - Z.log2 b.
Proof.
  unfold quotient_exponent.
  destruct (0 <=? Z.log2 a - Z.log2 b);
    match goal with |- (if ?c then _ else _) <= _ => destruct c end; lia.
Qed.

Lemma ulp_exponent_le (a b d : Z) :
  Z.log2 a - Z.log2 b <= d -> -1022 <= d ->
  ulp_exponent a b <= d - 52.
Proof.
  intros Hd Hmin. unfold ulp_exponent.
  pose proof (quotient_exponent_le a b). lia.
Qed.

End QuantumArithmetic.

Section Quantum.

Import PyFloat.

Lemma pow2_ge (lo e : Z) : 0 <= lo <= e -> 2 ^ lo <= 2 ^ e.
Proof. intros H. apply Z.pow_le_mono_r; lia. Qed.

Lemma tiles_division (n : Z) :
  1 <= n <= max_exact_tiles ->
  exists x, true_div n 1472 = Ret x /\ ceil x = ceil_div n 1472.
Proof.
  unfold max_exact_tiles. intros Hn.
  assert (Hlog : Z.log2 n < 54).
  { apply Z.log2_lt_pow2; [lia |].
    assert (1472 * 2 ^ 43 < 2 ^ 54) by reflexivity. lia. }
  assert (Hfine : forall e, e <= -10 -> 1472 < 2 ^ (1 - e)).
  { intros e He. pose proof (pow2_ge 11 (1 - e) ltac:(lia)) as Hp.
    change (2 ^ 11) with 2048 in Hp. lia. }
  destruct (Z_le_gt_dec (Z.log2 n) 52) as [Hsmall | Hbig].
  - assert (He : ulp_exponent n 1472 <= 42 - 52).
    { apply ulp_exponent_le; [| lia]. change (Z.log2 1472) with 10. lia. }
    apply ceil_true_div; [lia | lia | lia |]. right. apply Hfine. lia.
  - assert (H53 : Z.log2 n = 53) by lia.
    assert (Hqe : ulp_exponent n 1472 =
                  if 1472 * 2 ^ 43 <=? n then -9 else -10).
    { unfold ulp_exponent, quotient_exponent.
      rewrite H53. change (Z.log2 1472) with 10.
      change (53 - 10) with 43. change (0 <=? 43) with true. cbv iota.
      destruct (1472 * 2 ^ 43 <=? n); reflexivity. }
    destruct (Z.leb_spec (1472 * 2 ^ 43) n) as [Hmax | Hlt].
    + assert (Heq : n = 2 ^ 43 * 1472) by lia.
      apply ceil_true_div; [lia | lia | lia |]. left.
      rewrite Heq. apply Z.mod_mul. lia.
    + apply ceil_true_div; [lia | lia | lia |]. right. apply Hfine. lia.
Qed.

Lemma ipus_division (c : Z) :
  1 <= c <= 2 ^ 43 ->
  exists y, true_div c 4 = Ret y /\ ceil y = ceil_div c 4.
Proof.
  intros Hc.
  assert (Hlog : Z.log2 c < 44).
  { apply Z.log2_lt_pow2; [lia |].
    assert (2 ^ 43 < 2 ^ 44) by reflexivity. lia. }
  assert (He : ulp_exponent c 4 <= 41 - 52).
  { apply ulp_exponent_le; [| lia]. change (Z.log2 4) with 2. lia. }
  apply ceil_true_div; [lia | lia | lia |]. right.
  pose proof (pow2_ge 3 (1 - ulp_exponent c 4) ltac:(lia)) as Hp.
  change (2 ^ 3) with 8 in Hp. lia.
Qed.

Lemma ceil_div_tiles_range (n : Z) :
  1 <= n <= max_exact_tiles -> 1 <= ceil_div n 1472 <= 2 ^ 43.
Proof.
  unfold max_exact_tiles. intros Hn.
  pose proof (ceil_div_bounds n 1472 ltac:(lia)) as Hb.
  assert (Hpow : 0 < 2 ^ 43) by reflexivity.
  lia.
Qed.

Lemma ipus_needed_exact (n : Z) :
  1 <= n <= max_exact_tiles -> ipus_needed n = Ret (quantum_spec n).
Proof.
  intros Hn. unfold ipus_needed, quantum_spec, roundUpToMultiple.
  destruct (tiles_division n Hn) as (x & Hx & Hcx).
  rewrite Hx. cbn [res_bind]. rewrite Hcx.
  destruct (ipus_division (ceil_div n 1472) (ceil_div_tiles_range n Hn))
    as (y & Hy & Hcy).
  rewrite Hy. cbn [res_bind]. rewrite Hcy. reflexivity.
Qed.

Lemma quantum_spec_positive_multiple (n : Z) :
  1 <= n -> 0 < quantum_spec n /\ quantum_spec n mod 4 = 0.
Proof.
  intros Hn. unfold quantum_spec, roundUpToMultiple.
  pose proof (ceil_div_bounds n 1472 ltac:(lia)) as Hb.
  pose proof (ceil_div_bounds (ceil_div n 1472) 4 ltac:(lia)) as Hb'.
  split; [lia |].
  rewrite Z.mul_comm. apply Z.mod_mul. lia.
Qed.

End Quantum.

(** C1, as the code has it.  For every tile count from 1 up to
    [1472 * 2 ^ 43] the quantum the worker computes is
    [roundUpToMultiple (ceil (tileCount / 1472)) 4], a positive multiple of 4;
    tile counts 1, 1472, 1473 and 5888 give 4 and 5889 gives 8. *)
Theorem worker_quantum_exact_up_to_bound (tileCount : Z) :
  1 <= tileCount <= max_exact_tiles ->
  ipus_needed tileCount = Ret (quantum_spec tileCount)
  /\ 0 < quantum_spec tileCount
  /\ quantum_spec tileCount mod 4 = 0
  /\ ipus_needed 1 = Ret 4
  /\ ipus_needed 1472 = Ret 4
  /\ ipus_needed 1473 = Ret 4
  /\ ipus_needed 5888 = Ret 4
  /\ ipus_needed 5889 = Ret 8.
Proof.
  intros Hn.
  split; [exact (ipus_needed_exact tileCount Hn) |].
  destruct (quantum_spec_positive_multiple tileCount ltac:(lia)) as [Hpos Hmul].
  repeat split; try assumption; vm_compute; reflexivity.
Qed.

Lemma worker_quantum_exact_up_to_bound_witness :
  1 <= 5889 <= max_exact_tiles /\ ipus_needed 5889 = Ret (quantum_spec 5889).
Proof.
  assert (H : 1 <= 5889 <= max_exact_tiles) by (vm_compute; split; discriminate).
  split; [exact H |].
  exact (proj1 (worker_quantum_exact_up_to_bound 5889 H)).
Defined.

(** C1 as stated fails just above the bound: at tile count
    [1472 * 2 ^ 43 + 1] the float quotient rounds down to [2 ^ 43], so the
    worker computes [2 ^ 43] where the formula gives [2 ^ 43 + 4]. *)
Lemma worker_quantum_not_exact_for_every_tile_count :
  1 <= max_exact_tiles + 1
  /\ ipus_needed (max_exact_tiles + 1) = Ret (2 ^ 43)
  /\ quantum_spec (max_exact_tiles + 1) = 2 ^ 43 + 4
  /\ ipus_needed (max_exact_tiles + 1) <> Ret (quantum_spec (max_exact_tiles + 1)).
Proof.
  split; [vm_compute; discriminate |].
  split; [vm_compute; reflexivity |].
  split; [vm_compute; reflexivity |].
  vm_compute. discriminate.
Qed.

(** ** Properties of [run_program] *)

Section RunProgramFacts.

Variable sys : os.
Variables config matrix output_file profiling_dir program_path : string.
Variable numTiles : Z.

Let run : M bool :=
  run_program sys config matrix output_file profiling_dir numTiles
              program_path.




End RunProgramFacts.




(** C6, as the code has it.  [run_program] launches at most one process, and
    its argument vector always has five elements: the program, the
    configuration, the matrix, [-t<tileCount>], and a fifth that is
    [-d<profilingDir>] when a profiling directory is given and the empty
    string when none is.  When no process is launched, [run_program] does not
    return true. *)
Theorem run_program_argv
    (sys : os) (config matrix output_file profiling_dir : string)
    (numTiles : Z) (program_path : string) (w : world) :
  let run := run_program sys config matrix output_file profiling_dir
                         numTiles program_path in
  let argv := [program_path; config; matrix; "-t" +:+ str numTiles;
               if String.eqb profiling_dir "" then ""
               else "-d" +:+ profiling_dir] in
  launches (emitted run w) = [argv]
  \/ (launches (emitted run w) = [] /\ fst (run w) <> Ret true).
Proof.
  cbv zeta. run_program_cases.
  all: cbn [launches omap list_omap]; first [by left | by right].
Qed.
Lemma run_program_argv_witness :
  launches (emitted (run_program (os_exiting 0 "") "spmv.jsonc" "-mHook.mtx"
                                 "out.txt" "prof" 5888 "benchmark")
                    empty_world)
  = [["benchmark"; "spmv.jsonc"; "-mHook.mtx"; "-t5888"; "-dprof"]].
Proof.
  destruct (run_program_argv (os_exiting 0 "") "spmv.jsonc" "-mHook.mtx"
                             "out.txt" "prof" 5888 "benchmark" empty_world)
    as [Hlaunched | [Hnone _]].
  - exact Hlaunched.
  - vm_compute in Hnone. discriminate Hnone.
Defined.

(** C6 as stated fails without a profiling directory: the process receives
    five arguments, the last one empty, and not the four-element form. *)
Lemma run_program_passes_empty_flag :
  let run := run_program (os_exiting 0 "") "ir.jsonc" "-mHook.mtx" "out.txt" ""
                         5888 "benchmark" in
  launches (emitted run empty_world)
    = [["benchmark"; "ir.jsonc"; "-mHook.mtx"; "-t5888"; ""]]
  /\ launches (emitted run empty_world)
    <> [["benchmark"; "ir.jsonc"; "-mHook.mtx"; "-t5888"]].
Proof.
  cbv zeta. split; [vm_compute; reflexivity |].
  vm_compute. discriminate.
Qed.

Section RunProgramExceptions.

Variable sys : os.
Variables config matrix output_file profiling_dir program_path : string.
Variable numTiles : Z.

Let run : M bool :=
  run_program sys config matrix output_file profiling_dir numTiles
              program_path.

Lemma run_program_raises_iff (w : world) (e : exn) :
  fst (run w) = Raise e
  <-> (String.eqb profiling_dir "" = false
       /\ makedirs_outcome profiling_dir true w = Raise e)
      \/ exists e0,
           EvPrint ("Exception for " +:+ config +:+ " " +:+ matrix +:+ ": "
                      +:+ exn_msg e0) (Raise e) ∈ emitted run w.
Proof.
  subst run. run_program_cases.
  all: cbn [fst snd] in *; subst.
  all: split; [intros ? | intros [? | ?]].
  all: list_membership; try done.
  all: first [ solve [left; split; congruence]
             | solve [right; eexists; in_list] ].
Qed.

Lemma run_program_catches (w : world) (e : exn) :
  EvOpen output_file (Raise e) ∈ emitted run w
  \/ (exists argv, EvRun argv (Raise e) ∈ emitted run w)
  \/ (exists line,
        EvPrint line (Raise e) ∈ emitted run w
        /\ (line = "Running " +:+ config +:+ " " +:+ matrix +:+ " with "
                     +:+ str numTiles +:+ " tiles"
            \/ line = "Finished " +:+ config +:+ " " +:+ matrix
            \/ exists stderr,
                 line = "Error for " +:+ config +:+ " " +:+ matrix +:+ ": "
                          +:+ stderr)) ->
  exists r,
    EvPrint ("Exception for " +:+ config +:+ " " +:+ matrix +:+ ": "
               +:+ exn_msg e) r ∈ emitted run w
    /\ fst (run w) = match r with
                     | Ret _ => Ret false
                     | Raise e' => Raise e'
                     end.
Proof.
  subst run. run_program_cases.
  all: cbn [fst snd] in *; subst.
  all: intros [? | [? | (? & ? & [? | [? | ?]])]].
  all: list_membership; try done.
  all: eexists; split; [in_list | reflexivity].
Qed.

Lemma run_program_raises_with_stdout (w : world) :
  prints_succeed sys ->
  (forall e, fst (run w) = Raise e
             <-> String.eqb profiling_dir "" = false
                 /\ makedirs_outcome profiling_dir true w = Raise e)
  /\ (forall e, EvOpen output_file (Raise e) ∈ emitted run w ->
                fst (run w) = Ret false)
  /\ (forall argv e, EvRun argv (Raise e) ∈ emitted run w ->
                     fst (run w) = Ret false).
Proof.
  intros Hstdout. subst run. run_program_cases.
  all: prints_succeed_cases Hstdout.
  all: cbn [fst snd] in *; subst.
  all: repeat split; intros; list_membership; try done.
  all: try (destruct_and?; congruence).
Qed.

End RunProgramExceptions.

(** C9, as the code has it.  An exception raised inside the [try] block,
    that is while opening the output file, launching the process or writing
    one of the lines [Running], [Finished] and [Error for], is caught: the
    handler prints [Exception for <config> <matrix>: <message>] and
    [run_program] returns false when that line is written.  [run_program]
    raises exactly when a profiling directory is given and creating it
    raises, which happens before the [try] block, or when the handler's own
    [print] raises.  Where standard output takes every line, it raises
    exactly when creating the profiling directory raises. *)
Theorem run_program_raises_iff_makedirs_or_handler_raises
    (sys : os) (config matrix output_file profiling_dir : string)
    (numTiles : Z) (program_path : string) (w : world) :
  let run := run_program sys config matrix output_file profiling_dir
                         numTiles program_path in
  (forall e, fst (run w) = Raise e
             <-> (String.eqb profiling_dir "" = false
                  /\ makedirs_outcome profiling_dir true w = Raise e)
                 \/ exists e0,
                      EvPrint ("Exception for " +:+ config +:+ " " +:+ matrix
                                 +:+ ": " +:+ exn_msg e0) (Raise e)
                      ∈ emitted run w)
  /\ (forall e,
        EvOpen output_file (Raise e) ∈ emitted run w
        \/ (exists argv, EvRun argv (Raise e) ∈ emitted run w)
        \/ (exists line,
              EvPrint line (Raise e) ∈ emitted run w
              /\ (line = "Running " +:+ config +:+ " " +:+ matrix +:+ " with "
                           +:+ str numTiles +:+ " tiles"
                  \/ line = "Finished " +:+ config +:+ " " +:+ matrix
                  \/ exists stderr,
                       line = "Error for " +:+ config +:+ " " +:+ matrix
                                +:+ ": " +:+ stderr)) ->
        exists r,
          EvPrint ("Exception for " +:+ config +:+ " " +:+ matrix +:+ ": "
                     +:+ exn_msg e) r ∈ emitted run w
          /\ fst (run w) = match r with
                           | Ret _ => Ret false
                           | Raise e' => Raise e'
                           end)
  /\ (prints_succeed sys ->
      (forall e, fst (run w) = Raise e
                 <-> String.eqb profiling_dir "" = false
                     /\ makedirs_outcome profiling_dir true w = Raise e)
      /\ (forall e, EvOpen output_file (Raise e) ∈ emitted run w ->
                    fst (run w) = Ret false)
      /\ (forall argv e, EvRun argv (Raise e) ∈ emitted run w ->
                         fst (run w) = Ret false)).
Proof.
  cbv zeta. split; [| split].
  - intros e. apply run_program_raises_iff.
  - intros e. apply run_program_catches.
  - apply run_program_raises_with_stdout.
Qed.

Lemma run_program_raises_iff_makedirs_or_handler_raises_witness :
  fst (run_program os_unwritable "ir.jsonc" "-mHook.mtx" "out.txt" "" 5888
                   "benchmark" empty_world)
  = Ret false.
Proof.
  destruct (run_program_raises_iff_makedirs_or_handler_raises
              os_unwritable "ir.jsonc" "-mHook.mtx" "out.txt" "" 5888
              "benchmark" empty_world) as (_ & _ & Hclaim).
  destruct (Hclaim (fun _ _ => eq_refl)) as (_ & Hopen & _).
  apply (Hopen (Exn PermissionError "out.txt")).
  vm_compute. in_list.
Defined.

(** C9 as stated fails when the profiling directory cannot be created:
    with a regular file in its place, [os.makedirs] raises before the [try]
    block is entered, and the exception leaves [run_program]. *)
Lemma run_program_lets_makedirs_exception_escape :
  fst (run_program (os_exiting 0 "") "spmv.jsonc" "-mHook.mtx" "out.txt" "prof"
                   5888 "benchmark" (world_with_file "prof"))
  = Raise (Exn FileExistsError "prof").
Proof. vm_compute. reflexivity. Qed.

(** The same happens without a profiling directory when standard output is
    closed: the [print] of the [try] block raises, the handler's [print]
    raises in turn, and that exception leaves [run_program]. *)
Lemma run_program_lets_handler_exception_escape :
  fst (run_program (os_closed_stdout 0 "") "ir.jsonc" "-mHook.mtx" "out.txt"
                   "" 5888 "benchmark" empty_world)
  = Raise (Exn ValueError "I/O operation on closed file").
Proof. vm_compute. reflexivity. Qed.

Lemma makedirs_outcome_existing (name : string) (w : world) :
  name ∈ dirs w -> makedirs_outcome name true w = Ret tt.
Proof.
  intros Hin. unfold makedirs_outcome.
  destruct (decide (name ∈ dirs w)); [reflexivity | contradiction].
Qed.

Section ProfilingDirectory.

Variable sys : os.
Variables config matrix output_file profiling_dir program_path : string.
Variable numTiles : Z.

Let run : M bool :=
  run_program sys config matrix output_file profiling_dir numTiles
              program_path.

Lemma run_program_without_profiling_dir (w : world) :
  String.eqb profiling_dir "" = true ->
  (forall p r, EvMakedirs p r ∉ emitted run w) /\ dirs (snd (run w)) = dirs w.
Proof.
  intros Hempty. subst run. run_program_cases; try congruence.
  all: split; [intros p r Hin; list_membership | reflexivity].
Qed.

Lemma run_program_existing_profiling_dir (w : world) :
  String.eqb profiling_dir "" = false ->
  profiling_dir ∈ dirs w ->
  EvMakedirs profiling_dir (Ret tt) ∈ emitted run w
  /\ (prints_succeed sys -> exists b, fst (run w) = Ret b).
Proof.
  intros Hgiven Hin. subst run.
  pose proof (makedirs_outcome_existing _ _ Hin) as Hok.
  run_program_cases; try congruence.
  all: match goal with u : unit |- _ => destruct u end.
  all: split; [in_list | intros Hstdout; prints_succeed_cases Hstdout].
  all: by eexists.
Qed.

(** Once the directory is made it stays, however the attempt ends. *)
Lemma run_program_leaves_profiling_dir (w : world) :
  String.eqb profiling_dir "" = false ->
  EvMakedirs profiling_dir (Ret tt) ∈ emitted run w ->
  profiling_dir ∈ dirs (snd (run w)).
Proof.
  intros Hgiven. subst run. run_program_cases; try congruence.
  all: intros Hmade; list_membership; try done.
  all: rewrite !elem_of_union, elem_of_singleton; auto.
Qed.

Lemma run_program_returned_made_dir (w : world) (b : bool) :
  String.eqb profiling_dir "" = false ->
  fst (run w) = Ret b ->
  EvMakedirs profiling_dir (Ret tt) ∈ emitted run w.
Proof.
  intros Hgiven. subst run. run_program_cases; try congruence.
  all: try match goal with u : unit |- _ => destruct u end.
  all: intros Hret; try discriminate Hret; in_list.
Qed.

End ProfilingDirectory.

(** C10.  Without a profiling directory [run_program] makes no directory
    and leaves the set of directories as it was.  With one, the creation
    succeeds in every world where that directory already exists; and an
    attempt that returned, or that made the directory and ended in whatever
    way, leaves the directory behind, so the same job, run again, creates
    it successfully again.  Where standard output takes every line, the run
    then returns. *)
Theorem profiling_dir_creation_is_conditional_and_idempotent
    (sys : os) (config matrix output_file profiling_dir : string)
    (numTiles : Z) (program_path : string) (w : world) :
  let run := run_program sys config matrix output_file profiling_dir
                         numTiles program_path in
  (String.eqb profiling_dir "" = true ->
     (forall p r, EvMakedirs p r ∉ emitted run w)
     /\ dirs (snd (run w)) = dirs w)
  /\ (String.eqb profiling_dir "" = false ->
      profiling_dir ∈ dirs w ->
      EvMakedirs profiling_dir (Ret tt) ∈ emitted run w
      /\ (prints_succeed sys -> exists b, fst (run w) = Ret b))
  /\ (String.eqb profiling_dir "" = false ->
      forall b, fst (run w) = Ret b ->
      EvMakedirs profiling_dir (Ret tt) ∈ emitted run (snd (run w))
      /\ (prints_succeed sys -> exists b', fst (run (snd (run w))) = Ret b'))
  /\ (String.eqb profiling_dir "" = false ->
      EvMakedirs profiling_dir (Ret tt) ∈ emitted run w ->
      EvMakedirs profiling_dir (Ret tt) ∈ emitted run (snd (run w))).
Proof.
  cbv zeta. split; [| split; [| split]].
  - apply run_program_without_profiling_dir.
  - apply run_program_existing_profiling_dir.
  - intros Hgiven b Hret.
    apply run_program_existing_profiling_dir; [exact Hgiven |].
    apply run_program_leaves_profiling_dir; [exact Hgiven |].
    exact (run_program_returned_made_dir _ _ _ _ _ _ _ _ _ Hgiven Hret).
  - intros Hgiven Hmade.
    apply run_program_existing_profiling_dir; [exact Hgiven |].
    exact (run_program_leaves_profiling_dir _ _ _ _ _ _ _ _ Hgiven Hmade).
Qed.

(** A job with a profiling directory fails and is run again. *)
Lemma profiling_dir_creation_is_conditional_and_idempotent_witness :
  let run := run_program (os_exiting 1 "failed") "spmv.jsonc" "-mHook.mtx"
                         "out.txt" "logs/profiling/spmv" 5888 "benchmark" in
  fst (run empty_world) = Ret false
  /\ EvMakedirs "logs/profiling/spmv" (Ret tt)
     ∈ emitted run (snd (run empty_world))
  /\ exists b', fst (run (snd (run empty_world))) = Ret b'.
Proof.
  cbv zeta.
  assert (Hfirst : fst (run_program (os_exiting 1 "failed") "spmv.jsonc"
                          "-mHook.mtx" "out.txt" "logs/profiling/spmv" 5888
                          "benchmark" empty_world) = Ret false)
    by (vm_compute; reflexivity).
  split; [exact Hfirst |].
  destruct (profiling_dir_creation_is_conditional_and_idempotent
              (os_exiting 1 "failed") "spmv.jsonc" "-mHook.mtx" "out.txt"
              "logs/profiling/spmv" 5888 "benchmark" empty_world)
    as (_ & _ & Hretry & _).
  destruct (Hretry eq_refl false Hfirst) as [Hmade Hreturns].
  split; [exact Hmade | exact (Hreturns (fun _ _ => eq_refl))].
Defined.

(** ** Properties of [IPUSemaphore] *)

Section CallersFacts.

Import Callers.

Lemma held_units_cons (c : caller) (cs : list caller) :
  held_units (c :: cs) = held c + held_units cs.
Proof. reflexivity. Qed.

Lemma held_units_insert (cs : list caller) (i : nat) (c c' : caller) :
  cs !! i = Some c ->
  held_units (<[i := c']> cs) = held_units cs - held c + held c'.
Proof.
  revert i. induction cs as [| x cs IH]; intros [| i] Hi; try discriminate.
  - injection Hi as ->.
    change (<[0%nat := c']> (c :: cs)) with (c' :: cs).
    rewrite !held_units_cons. lia.
  - change (<[S i := c']> (x :: cs)) with (x :: <[i := c']> cs).
    rewrite !held_units_cons, (IH i Hi). lia.
Qed.

Lemma held_units_nonneg (cs : list caller) :
  Forall sane_caller cs -> 0 <= held_units cs.
Proof.
  induction 1 as [| c cs Hc _ IH]; [cbn; lia |].
  rewrite held_units_cons. destruct c; cbn in *; lia.
Qed.

Lemma held_units_idle (n : nat) : held_units (replicate n Idle) = 0.
Proof. induction n as [| n IH]; cbn; [reflexivity |]. exact IH. Qed.

Lemma balanced_init (total : Z) (ncallers : nat) :
  0 <= total -> balanced total (init total ncallers).
Proof.
  intros Ht. unfold balanced, init. cbn.
  rewrite held_units_idle.
  repeat split; try lia.
  apply Forall_replicate. exact I.
Qed.

Lemma balanced_available_le (total : Z) (st : state) :
  balanced total st -> 0 <= available_ipus (sem st) <= total.
Proof.
  intros (_ & Hheld & Hlo & Hsane).
  pose proof (held_units_nonneg _ Hsane). lia.
Qed.

Lemma balanced_step (total : Z) (o : op) (st st' : state) :
  sane o -> balanced total st -> step o st = Some st' -> balanced total st'.
Proof.
  intros Ho (Htot & Hheld & Hlo & Hsane) Hstep.
  destruct o as [i n | i | i]; cbn in Hstep;
    destruct (callers st !! i) as [[| m | m] |] eqn:Hi; try discriminate.
  - injection Hstep as <-. unfold balanced. cbn [sem callers].
    rewrite (held_units_insert _ _ _ _ Hi). cbn [held].
    repeat split; try lia. apply Forall_insert; [assumption | exact Ho].
  - unfold enter in Hstep.
    destruct (Z.ltb_spec (available_ipus (sem st)) m); [discriminate |].
    injection Hstep as <-.
    unfold balanced. cbn [sem callers total_ipus available_ipus].
    rewrite (held_units_insert _ _ _ _ Hi). cbn [held].
    repeat split; try lia.
    apply Forall_insert; [assumption |].
    exact (Forall_lookup_1 _ _ _ _ Hsane Hi).
  - injection Hstep as <-.
    unfold balanced, leave. cbn [sem callers total_ipus available_ipus].
    rewrite (held_units_insert _ _ _ _ Hi). cbn [held].
    pose proof (Forall_lookup_1 _ _ _ _ Hsane Hi) as Hm. cbn in Hm.
    repeat split; try lia. apply Forall_insert; [assumption | exact I].
Qed.

Lemma balanced_run (total : Z) (ops : list op) (st st' : state) :
  Forall sane ops -> balanced total st -> run ops st = Some st' ->
  balanced total st'.
Proof.
  intros Hops. revert st.
  induction Hops as [| o ops Ho _ IH]; intros st Hbal Hrun; cbn in Hrun.
  - injection Hrun as <-. exact Hbal.
  - destruct (step o st) as [st1 |] eqn:Hstep; [| discriminate].
    exact (IH st1 (balanced_step _ _ _ _ Ho Hbal Hstep) Hrun).
Qed.

Lemma oversized_enter_blocks (total n : Z) (st : state) :
  balanced total st -> total < n -> enter n (sem st) = None.
Proof.
  intros Hbal Hn. pose proof (balanced_available_le _ _ Hbal).
  unfold enter.
  destruct (Z.ltb_spec (available_ipus (sem st)) n); [reflexivity | lia].
Qed.

Lemma oversized_waiter_step (total n : Z) (i : nat) (o : op) (st st' : state) :
  balanced total st -> total < n ->
  callers st !! i = Some (Waiting n) ->
  step o st = Some st' ->
  callers st' !! i = Some (Waiting n).
Proof.
  intros Hbal Hn Hi Hstep.
  destruct o as [k m | k | k]; cbn in Hstep;
    destruct (callers st !! k) as [[| m' | m'] |] eqn:Hk; try discriminate.
  - injection Hstep as <-. cbn.
    rewrite list_lookup_insert_ne; [exact Hi | congruence].
  - destruct (enter m' (sem st)) as [s' |] eqn:He; [| discriminate].
    injection Hstep as <-. cbn.
    destruct (decide (k = i)) as [-> | Hne].
    + rewrite Hi in Hk. injection Hk as <-.
      rewrite (oversized_enter_blocks _ _ _ Hbal Hn) in He. discriminate.
    + rewrite list_lookup_insert_ne; [exact Hi | exact Hne].
  - injection Hstep as <-. cbn.
    rewrite list_lookup_insert_ne; [exact Hi | congruence].
Qed.

Lemma oversized_waiter_run (total n : Z) (i : nat) (ops : list op)
    (st st' : state) :
  Forall sane ops -> balanced total st -> total < n ->
  callers st !! i = Some (Waiting n) ->
  run ops st = Some st' ->
  callers st' !! i = Some (Waiting n) /\ balanced total st'.
Proof.
  intros Hops. revert st.
  induction Hops as [| o ops Ho _ IH]; intros st Hbal Hn Hi Hrun; cbn in Hrun.
  - injection Hrun as <-. split; assumption.
  - destruct (step o st) as [st1 |] eqn:Hstep; [| discriminate].
    apply (IH st1); try assumption.
    + exact (balanced_step _ _ _ _ Ho Hbal Hstep).
    + exact (oversized_waiter_step _ _ _ _ _ _ Hbal Hn Hi Hstep).
Qed.

End CallersFacts.

(** C3.  In every state that calls, passes and exits reach from a fresh
    semaphore with [total] units, none of the calls asking for a negative
    number, the available units lie between 0 and [total], and the units in
    use are exactly those held by the callers between their [__enter__] and
    their [__exit__]. *)
Theorem semaphore_units_invariant
    (total : Z) (ncallers : nat) (ops : list Callers.op) (st : Callers.state) :
  0 <= total ->
  Forall Callers.sane ops ->
  Callers.run ops (Callers.init total ncallers) = Some st ->
  0 <= available_ipus (Callers.sem st) <= total
  /\ total - available_ipus (Callers.sem st)
     = Callers.held_units (Callers.callers st).
Proof.
  intros Ht Hops Hrun.
  pose proof (balanced_run _ _ _ _ Hops (balanced_init _ ncallers Ht) Hrun)
    as Hbal.
  split; [exact (balanced_available_le _ _ Hbal) |].
  destruct Hbal as (_ & Hheld & _). exact Hheld.
Qed.

(** C7.  A caller that asks for more units than the semaphore has in total
    finds its wait condition false in every reachable state, and is still
    waiting after any further calls, passes and exits of the others. *)
Theorem oversized_request_never_returns
    (total : Z) (ncallers : nat) (ops : list Callers.op) (st : Callers.state)
    (i : nat) (n : Z) :
  0 <= total ->
  Forall Callers.sane ops ->
  Callers.run ops (Callers.init total ncallers) = Some st ->
  Callers.callers st !! i = Some (Callers.Waiting n) ->
  total < n ->
  enter n (Callers.sem st) = None
  /\ Callers.step (Callers.Pass i) st = None
  /\ forall ops' st',
       Forall Callers.sane ops' ->
       Callers.run ops' st = Some st' ->
       Callers.callers st' !! i = Some (Callers.Waiting n)
       /\ enter n (Callers.sem st') = None.
Proof.
  intros Ht Hops Hrun Hi Hn.
  pose proof (balanced_run _ _ _ _ Hops (balanced_init _ ncallers Ht) Hrun)
    as Hbal.
  pose proof (oversized_enter_blocks _ _ _ Hbal Hn) as Hblock.
  split; [exact Hblock |]. split.
  - cbn. rewrite Hi, Hblock. reflexivity.
  - intros ops' st' Hops' Hrun'.
    destruct (oversized_waiter_run _ _ _ _ _ _ Hops' Hbal Hn Hi Hrun')
      as [Hi' Hbal'].
    split; [exact Hi' | exact (oversized_enter_blocks _ _ _ Hbal' Hn)].
Qed.

Lemma semaphore_units_invariant_witness :
  0 <= available_ipus (Semaphore 16 0) <= 16
  /\ 16 - available_ipus (Semaphore 16 0)
     = Callers.held_units [Callers.Idle; Callers.Holding 8; Callers.Holding 8].
Proof.
  apply (semaphore_units_invariant 16 3 three_callers_of_eight
           (Callers.State (Semaphore 16 0)
              [Callers.Idle; Callers.Holding 8; Callers.Holding 8])).
  - lia.
  - repeat constructor; cbn; lia.
  - reflexivity.
Defined.

Lemma oversized_request_never_returns_witness :
  enter 20 (Semaphore 16 8) = None
  /\ Callers.step (Callers.Pass 0)
       (Callers.State (Semaphore 16 8) [Callers.Waiting 20; Callers.Holding 8])
     = None
  /\ forall ops' st',
       Forall Callers.sane ops' ->
       Callers.run ops'
         (Callers.State (Semaphore 16 8) [Callers.Waiting 20; Callers.Holding 8])
       = Some st' ->
       Callers.callers st' !! 0%nat = Some (Callers.Waiting 20)
       /\ enter 20 (Callers.sem st') = None.
Proof.
  apply (oversized_request_never_returns 16 2 oversized_call
           (Callers.State (Semaphore 16 8)
              [Callers.Waiting 20; Callers.Holding 8]) 0 20).
  - lia.
  - repeat constructor; cbn; lia.
  - reflexivity.
  - reflexivity.
  - lia.
Defined.

(** ** Properties of the workers *)

Section WorkersFacts.

Variable sys : os.
Variable program_path : string.

Lemma in_flight_cons (p : pc) (ts : list pc) :
  in_flight (p :: ts) = attempt p + in_flight ts.
Proof. reflexivity. Qed.

Lemma in_flight_insert (ts : list pc) (i : nat) (p p' : pc) :
  ts !! i = Some p ->
  in_flight (<[i := p']> ts) = in_flight ts - attempt p + attempt p'.
Proof.
  revert i. induction ts as [| x ts IH]; intros [| i] Hi; try discriminate.
  - injection Hi as ->.
    change (<[0%nat := p']> (p :: ts)) with (p' :: ts).
    rewrite !in_flight_cons. lia.
  - change (<[S i := p']> (x :: ts)) with (x :: <[i := p']> ts).
    rewrite !in_flight_cons, (IH i Hi). lia.
Qed.

Lemma in_flight_nonneg (ts : list pc) : 0 <= in_flight ts.
Proof.
  induction ts as [| p ts IH]; [cbn; lia |].
  rewrite in_flight_cons. destruct p; cbn [attempt]; lia.
Qed.

Lemma in_flight_zero (ts : list pc) (i : nat) (p : pc) :
  in_flight ts = 0 -> ts !! i = Some p -> attempt p = 0.
Proof.
  revert i. induction ts as [| x ts IH]; intros i Hz Hi; [discriminate |].
  rewrite in_flight_cons in Hz.
  pose proof (in_flight_nonneg ts).
  assert (0 <= attempt x) by (destruct x; cbn; lia).
  destruct i as [| i].
  - injection Hi as <-. lia.
  - apply (IH i); [lia | exact Hi].
Qed.

Lemma in_flight_at_loop (n : nat) : in_flight (replicate n AtLoop) = 0.
Proof. induction n as [| n IH]; [reflexivity |]. exact IH. Qed.

Lemma count_actions_snoc (f : action -> bool) (acts : list (nat * action))
    (x : nat * action) :
  count_actions f (acts ++ [x])
  = count_actions f acts + (if f (snd x) then 1 else 0).
Proof.
  unfold count_actions. rewrite filter_app, length_app.
  destruct (f (snd x)) eqn:Hf.
  - rewrite filter_cons_True by exact Hf. cbn. lia.
  - rewrite filter_cons_False by (rewrite Hf; discriminate). cbn. lia.
Qed.


(** A property of the actions so far and the state, kept by every step,
    holds after every run. *)
Section Invariant.

Variable I : list (nat * action) -> state -> Prop.
Hypothesis I_step :
  forall acts s i a s',
    I acts s -> step sys program_path i s = Some (a, s') -> I (acts ++ [(i, a)]) s'.

Lemma exec_invariant (sched : list nat) :
  forall acts0 s0 acts s,
    I acts0 s0 -> exec sys program_path sched s0 = Some (acts, s) -> I (acts0 ++ acts) s.
Proof.
  induction sched as [| i sched IH]; intros acts0 s0 acts s HI Hexec;
    cbn in Hexec.
  - injection Hexec as <- <-. rewrite app_nil_r. exact HI.
  - destruct (step sys program_path i s0) as [[a s1] |] eqn:Hstep; [| discriminate].
    destruct (exec sys program_path sched s1) as [[acts1 s2] |] eqn:Hrest; [| discriminate].
    injection Hexec as <- <-.
    replace (acts0 ++ (i, a) :: acts1) with ((acts0 ++ [(i, a)]) ++ acts1)
      by (rewrite <- app_assoc; reflexivity).
    exact (IH _ _ _ _ (I_step _ _ _ _ _ HI Hstep) Hrest).
Qed.

End Invariant.


End WorkersFacts.

Section DrainFacts.

Variable sys : os.
Variable program_path : string.

Lemma accounted_step (seeded : Z) acts s i a s' :
  accounted seeded acts s ->
  step sys program_path i s = Some (a, s') ->
  accounted seeded (acts ++ [(i, a)]) s'.
Proof.
  intros [Hcount Hflight] Hstep. unfold accounted.
  rewrite !count_actions_snoc.
  step_inv Hstep;
    cbn [snd is_put is_task_done task_queue unfinished_tasks threads];
    rewrite (in_flight_insert _ _ _ _ Hpc); cbn [attempt];
    rewrite ?length_app; cbn [length] in *;
    match goal with
    | Hq : task_queue s = _ |- _ => rewrite Hq in Hflight; cbn [length] in Hflight
    | _ => idtac
    end; lia.
Qed.

Lemma accounted_start (jobs : list job) (total : Z) (w : world) :
  accounted (Z.of_nat (length jobs)) [] (start jobs total w).
Proof.
  unfold accounted, start. cbn.
  rewrite in_flight_at_loop. unfold count_actions. cbn. lia.
Qed.

End DrainFacts.

(** C2.  In every state the workers reach from [main]'s start, the count of
    unfinished tasks is the number of seeded jobs plus the retries put back
    minus the completions reported, and it equals the number of queued jobs
    plus the attempts in flight.  So when [join] can return, the queue is
    empty, no thread has an attempt outstanding, and every job put on the
    queue, at the start or as a retry, has reported its completion. *)
Theorem drain_waits_for_retries
    (sys : os) (program_path : string) (jobs : list job) (total : Z)
    (w : world) (sched : list nat) (acts : list (nat * action)) (s : state) :
  exec sys program_path sched (start jobs total w) = Some (acts, s) ->
  unfinished_tasks s
  = Z.of_nat (length jobs) + count_actions is_put acts
    - count_actions is_task_done acts
  /\ unfinished_tasks s
     = Z.of_nat (length (task_queue s)) + in_flight (threads s)
  /\ (join_returns s = true ->
      task_queue s = []
      /\ (forall i p, threads s !! i = Some p -> attempt p = 0)
      /\ count_actions is_task_done acts
         = Z.of_nat (length jobs) + count_actions is_put acts).
Proof.
  intros Hexec.
  pose proof (exec_invariant sys program_path _
                (accounted_step sys program_path (Z.of_nat (length jobs)))
                sched [] _ _ _ (accounted_start jobs total w) Hexec)
    as [Hcount Hflight].
  cbn [app] in Hcount. split; [exact Hcount |]. split; [exact Hflight |].
  unfold join_returns. intros Hjoin%Z.eqb_eq.
  pose proof (in_flight_nonneg (threads s)) as Hnn.
  assert (Hq : task_queue s = []).
  { destruct (task_queue s); [reflexivity | cbn [length] in Hflight; lia]. }
  rewrite Hq in Hflight. cbn [length] in Hflight.
  split; [exact Hq |]. split; [| lia].
  intros i p Hp. apply (in_flight_zero (threads s) i p); [lia | exact Hp].
Qed.

(** One worker runs a job that fails twice and then succeeds. *)
Lemma drain_waits_for_retries_witness :
  exists acts s,
    exec (os_failing_first 2) "benchmark" (replicate 22 0%nat)
         (start [hook_job] 16 empty_world) = Some (acts, s)
    /\ count_actions is_put acts = 2
    /\ join_returns s = true
    /\ task_queue s = []
    /\ count_actions is_task_done acts = 3.
Proof.
  destruct (exec (os_failing_first 2) "benchmark" (replicate 22 0%nat)
              (start [hook_job] 16 empty_world)) as [[acts s] |] eqn:Hexec;
    [| vm_compute in Hexec; discriminate].
  exists acts, s.
  destruct (drain_waits_for_retries _ _ _ _ _ _ _ _ Hexec)
    as (Hcount & _ & Hjoin).
  assert (Hputs : count_actions is_put acts = 2).
  { vm_compute in Hexec. injection Hexec as <- _. reflexivity. }
  assert (Hret : join_returns s = true).
  { vm_compute in Hexec. injection Hexec as _ <-. reflexivity. }
  destruct (Hjoin Hret) as (Hq & _ & Hdone).
  split; [reflexivity |]. split; [exact Hputs |]. split; [exact Hret |].
  split; [exact Hq |]. rewrite Hdone, Hputs. reflexivity.
Defined.

Section ReleaseFacts.

Variable sys : os.
Variable program_path : string.











End ReleaseFacts.

Section OrderFacts.

Variable sys : os.
Variable program_path : string.


Lemma step_finishes i k a s s' :
  step sys program_path k s = Some (a, s') ->
  threads s !! i <> Some Finished ->
  threads s' !! i = Some Finished ->
  k = i /\ a = ActEmpty true /\ threads s !! i = Some AtLoop
  /\ task_queue s = [].
Proof.
  intros Hstep Hnot Hfin.
  step_inv Hstep; cbn [threads] in Hfin;
    pose proof (lookup_lt_Some _ _ _ Hpc) as Hlt;
    (destruct (decide (k = i)) as [-> | Hne];
     [ rewrite (list_lookup_insert_eq _ _ _ Hlt) in Hfin
     | rewrite (list_lookup_insert_ne _ _ _ _ Hne) in Hfin; contradiction ]);
    try discriminate Hfin.
  repeat split; assumption.
Qed.

Lemma finished_after_empty_check (i : nat) (sched : list nat) :
  forall s0 acts s,
    exec sys program_path sched s0 = Some (acts, s) ->
    threads s0 !! i <> Some Finished ->
    threads s !! i = Some Finished ->
    exists sched1 sched2 pre post s1 s2,
      sched = sched1 ++ i :: sched2
      /\ acts = pre ++ (i, ActEmpty true) :: post
      /\ exec sys program_path sched1 s0 = Some (pre, s1)
      /\ threads s1 !! i = Some AtLoop
      /\ task_queue s1 = []
      /\ step sys program_path i s1 = Some (ActEmpty true, s2)
      /\ exec sys program_path sched2 s2 = Some (post, s).
Proof.
  induction sched as [| k sched IH]; intros s0 acts s Hexec Hnot Hfin;
    cbn in Hexec.
  - injection Hexec as _ <-. contradiction.
  - destruct (step sys program_path k s0) as [[a s1] |] eqn:Hstep;
      [| discriminate].
    destruct (exec sys program_path sched s1) as [[acts1 s2] |] eqn:Hrest;
      [| discriminate].
    injection Hexec as <- <-.
    assert (Hcases : threads s1 !! i = Some Finished
                     \/ threads s1 !! i <> Some Finished).
    { destruct (threads s1 !! i) as [[] |]; (by left) || (by right). }
    destruct Hcases as [Hnow | Hlater].
    + destruct (step_finishes _ _ _ _ _ Hstep Hnot Hnow)
        as (-> & -> & Hloop & Hempty).
      exists [], sched, [], acts1, s0, s1. cbn. repeat split; assumption.
    + destruct (IH _ _ _ Hrest Hlater Hfin)
        as (sched1 & sched2 & pre & post & s1' & s2' & -> & -> & H1 & H2 & H3
            & H4 & H5).
      exists (k :: sched1), sched2, ((k, a) :: pre), post, s1', s2'.
      cbn. rewrite Hstep, H1. repeat split; assumption.
Qed.

Lemma start_not_finished (jobs : list job) (total : Z) (w : world) (i : nat) :
  threads (start jobs total w) !! i <> Some Finished.
Proof.
  unfold start. cbn. intros Hp.
  apply lookup_replicate in Hp as [Hp _]. discriminate.
Qed.

Lemma empty_check_exits i s :
  threads s !! i = Some AtLoop -> task_queue s = [] ->
  exists s', step sys program_path i s = Some (ActEmpty true, s')
             /\ threads s' !! i = Some Finished.
Proof.
  intros Hp Hq. pose proof (lookup_lt_Some _ _ _ Hp) as Hlt.
  unfold step. rewrite Hp, Hq. eexists. split; [reflexivity |].
  cbn [threads]. unfold set_thread. apply list_lookup_insert_eq. exact Hlt.
Qed.

Lemma step_other_thread i k a s s' :
  step sys program_path k s = Some (a, s') -> k <> i ->
  threads s' !! i = threads s !! i.
Proof.
  intros Hstep Hne.
  step_inv Hstep; cbn [threads]; apply list_lookup_insert_ne; exact Hne.
Qed.





End OrderFacts.




(** C8, as the code has it.  A worker that has left its loop did so in a
    step of its own in which [task_queue.empty()] was true, at a moment when
    the queue held nothing; and a worker at the loop test leaves as soon as
    it finds the queue empty.  Nothing is said there about the queue staying
    empty. *)
Theorem worker_exits_when_it_sees_queue_empty
    (sys : os) (program_path : string) (jobs : list job) (total : Z)
    (w : world) (sched : list nat) (acts : list (nat * action)) (s : state)
    (i : nat) :
  exec sys program_path sched (start jobs total w) = Some (acts, s) ->
  (threads s !! i = Some Finished ->
   exists sched1 sched2 pre post s1 s2,
     sched = sched1 ++ i :: sched2
     /\ acts = pre ++ (i, ActEmpty true) :: post
     /\ exec sys program_path sched1 (start jobs total w) = Some (pre, s1)
     /\ threads s1 !! i = Some AtLoop
     /\ task_queue s1 = []
     /\ step sys program_path i s1 = Some (ActEmpty true, s2)
     /\ exec sys program_path sched2 s2 = Some (post, s))
  /\ (threads s !! i = Some AtLoop -> task_queue s = [] ->
      exists s', step sys program_path i s = Some (ActEmpty true, s')
                 /\ threads s' !! i = Some Finished).
Proof.
  intros Hexec. split.
  - intros Hfin.
    exact (finished_after_empty_check _ _ _ _ _ _ _ Hexec
             (start_not_finished jobs total w i) Hfin).
  - apply empty_check_exits.
Qed.

Lemma worker_exits_when_it_sees_queue_empty_witness :
  exists acts s,
    exec (os_exiting 1 "failed") "benchmark" [0; 0; 1]%nat
         (start [hook_job] 16 empty_world) = Some (acts, s)
    /\ threads s !! 1%nat = Some Finished
    /\ exists pre post,
         acts = pre ++ (1%nat, ActEmpty true) :: post.
Proof.
  destruct (exec (os_exiting 1 "failed") "benchmark" [0; 0; 1]%nat
              (start [hook_job] 16 empty_world)) as [[acts s] |] eqn:Hexec;
    [| vm_compute in Hexec; discriminate].
  exists acts, s.
  destruct (worker_exits_when_it_sees_queue_empty _ _ _ _ _ _ _ _ 1%nat Hexec)
    as [Hexit _].
  assert (Hfin : threads s !! 1%nat = Some Finished).
  { vm_compute in Hexec. injection Hexec as _ <-. reflexivity. }
  split; [reflexivity |]. split; [exact Hfin |].
  destruct (Hexit Hfin) as (_ & _ & pre & post & _ & _ & _ & Hacts & _).
  exists pre, post. exact Hacts.
Defined.

(** C8 as stated fails: worker 1 finds the queue empty while worker 0 is
    running the only job, and leaves its loop; worker 0's attempt fails and
    the job is back on the queue, which did not stay empty. *)
Lemma worker_exits_while_retry_is_pending :
  (fun r => (threads (snd r) !! 1%nat, task_queue (snd r)))
    <$> exec (os_exiting 1 "failed") "benchmark" [0; 0; 1]%nat
             (start [hook_job] 16 empty_world)
  = Some (Some Finished, [])
  /\ (fun r => (threads (snd r) !! 1%nat, task_queue (snd r)))
       <$> exec (os_exiting 1 "failed") "benchmark" [0; 0; 1; 0; 0; 0]%nat
                (start [hook_job] 16 empty_world)
     = Some (Some Finished, [hook_job]).
Proof. split; vm_compute; reflexivity. Qed.

(** * Further properties *)

(** ** The quantum is never negative *)

Section QuantumSign.

Import PyFloat.

Lemma round_half_even_nonneg (n d : Z) :
  0 <= n -> 0 < d -> 0 <= round_half_even n d.
Proof.
  intros Hn Hd. pose proof (round_half_even_bounds n d).
  pose proof (Z.div_pos n d Hn Hd). lia.
Qed.

Lemma true_div_pos_mant_nonneg (a b : Z) (x : float) :
  0 < a -> 0 < b -> true_div_pos a b = Ret x -> 0 <= mant x.
Proof.
  intros Ha Hb. unfold true_div_pos.
  match goal with
  | |- (if ?c then _ else _) = _ -> _ => destruct c; [discriminate |]
  end.
  intros [= <-]. cbn [mant].
  destruct (Z.leb_spec 0 (ulp_exponent a b)).
  - apply round_half_even_nonneg; [lia |].
    apply Z.mul_pos_pos; [lia | apply Z.pow_pos_nonneg; lia].
  - apply round_half_even_nonneg; [| lia].
    apply Z.mul_nonneg_nonneg; [lia | apply Z.pow_nonneg; lia].
Qed.

Lemma ceil_nonneg (x : float) : 0 <= mant x -> 0 <= ceil x.
Proof.
  intros Hm. unfold ceil. destruct (Z.leb_spec 0 (expo x)).
  - apply Z.mul_nonneg_nonneg; [lia | apply Z.pow_nonneg; lia].
  - assert (Hp : 0 < 2 ^ (- expo x)) by (apply Z.pow_pos_nonneg; lia).
    fold (ceil_div (mant x) (2 ^ (- expo x))).
    pose proof (ceil_div_bounds (mant x) _ Hp). nia.
Qed.

Lemma true_div_nonneg (a b : Z) (x : float) :
  0 <= a -> 0 < b -> true_div a b = Ret x -> 0 <= ceil x.
Proof.
  intros Ha Hb. unfold true_div.
  destruct (Z.eqb_spec b 0); [lia |].
  destruct (Z.eqb_spec a 0) as [-> | Hne].
  - intros [= <-]. vm_compute. discriminate.
  - rewrite (Z.abs_eq a), (Z.abs_eq b) by lia.
    destruct (true_div_pos a b) as [y |] eqn:Hy; [| discriminate].
    cbn [res_bind].
    destruct (Z.ltb_spec a 0); [lia |]. destruct (Z.ltb_spec b 0); [lia |].
    cbn [Bool.eqb]. intros [= <-].
    apply ceil_nonneg. apply (true_div_pos_mant_nonneg a b); [lia | lia | exact Hy].
Qed.

Lemma ipus_needed_nonneg (n q : Z) :
  0 <= n -> ipus_needed n = Ret q -> 0 <= q.
Proof.
  intros Hn. unfold ipus_needed.
  destruct (true_div n 1472) as [x |] eqn:Hx; [| discriminate].
  cbn [res_bind].
  destruct (true_div (ceil x) 4) as [y |] eqn:Hy; [| discriminate].
  cbn [res_bind]. intros [= <-].
  pose proof (true_div_nonneg n 1472 x Hn ltac:(lia) Hx) as Hc.
  pose proof (true_div_nonneg (ceil x) 4 y Hc ltac:(lia) Hy). lia.
Qed.

End QuantumSign.

(** ** Seeded jobs and units in the worker pool *)

Section Soundness.

Variable sys : os.
Variable program_path : string.
Variable jobs : list job.
Variable total : Z.

Lemma count_pcs_cons (f : pc -> Z) (p : pc) (ts : list pc) :
  count_pcs f (p :: ts) = f p + count_pcs f ts.
Proof. reflexivity. Qed.

Lemma count_pcs_insert (f : pc -> Z) (ts : list pc) (i : nat) (p p' : pc) :
  ts !! i = Some p ->
  count_pcs f (<[i := p']> ts) = count_pcs f ts - f p + f p'.
Proof.
  revert i. induction ts as [| x ts IH]; intros [| i] Hi; try discriminate.
  - injection Hi as ->.
    change (<[0%nat := p']> (p :: ts)) with (p' :: ts).
    rewrite !count_pcs_cons. lia.
  - change (<[S i := p']> (x :: ts)) with (x :: <[i := p']> ts).
    rewrite !count_pcs_cons, (IH i Hi). lia.
Qed.

Lemma count_pcs_replicate (f : pc -> Z) (n : nat) (p : pc) :
  f p = 0 -> count_pcs f (replicate n p) = 0.
Proof.
  intros Hp. induction n as [| n IH]; [reflexivity |].
  cbn [replicate]. rewrite count_pcs_cons. lia.
Qed.

Lemma enter_some (n : Z) (sm sm' : IPUSemaphore) :
  enter n sm = Some sm' ->
  n <= available_ipus sm
  /\ sm' = Semaphore (total_ipus sm) (available_ipus sm - n).
Proof.
  unfold enter. destruct (Z.ltb_spec (available_ipus sm) n); [discriminate |].
  intros [= <-]. split; [lia | reflexivity].
Qed.

Lemma seeded_quantum_nonneg (j : job) (n : Z) :
  j ∈ jobs -> ipus_needed (numTiles j) = Ret n ->
  Forall (fun j => 0 <= numTiles j) jobs -> 0 <= n.
Proof.
  intros Hj Hn Hjobs.
  apply (ipus_needed_nonneg (numTiles j)); [| exact Hn].
  exact (proj1 (Forall_forall _ _) Hjobs j Hj).
Qed.

Lemma sound_step acts s i a s' :
  sound jobs total acts s ->
  step sys program_path i s = Some (a, s') ->
  sound jobs total (acts ++ [(i, a)]) s'.
Proof.
  intros (Hq & Hts & Hacts & Htot & Hcons & Hnn) Hstep.
  step_inv Hstep.
  all: pose proof (Forall_lookup_1 _ _ _ _ Hts Hpc) as [Hjob Hquant].
  all: cbn [job_of_pc quantum_of_pc] in Hjob, Hquant.
  all: unfold sound;
    cbn [task_queue threads ipu_semaphore total_ipus available_ipus leave].
  all: unfold units_inside in *; rewrite (count_pcs_insert _ _ _ _ _ Hpc).
  all: cbn [units_of inside_with from_option]; unfold id.
  all: repeat match goal with
         | H : enter _ _ = Some _ |- _ =>
             apply enter_some in H; destruct H as [? ->]
         | H : Forall _ (_ :: _) |- _ =>
             apply Forall_cons in H; destruct H
         end.
  all: cbn [total_ipus available_ipus].
  all: repeat split; try assumption; try lia.
  all: try (apply Forall_insert; [exact Hts |];
            split; cbn [job_of_pc quantum_of_pc]; intros; simplify_eq; eauto).
  all: try (apply Forall_app; split; [assumption |];
            apply Forall_singleton; cbn [snd job_of_action];
            intros; simplify_eq; eauto).
  all: try (constructor; assumption).
  all: intros Htotal Hjobs; specialize (Hnn Htotal Hjobs);
    pose proof (seeded_quantum_nonneg _ _ (Hjob _ eq_refl)
                  (Hquant _ _ eq_refl) Hjobs);
    lia.
Qed.

Lemma units_inside_nonneg (ts : list pc) :
  Forall (pc_sound jobs) ts ->
  Forall (fun j => 0 <= numTiles j) jobs ->
  0 <= units_inside ts.
Proof.
  intros Hts Hjobs. unfold units_inside.
  induction Hts as [| p ts [Hjob Hquant] _ IH]; [cbn; lia |].
  rewrite count_pcs_cons.
  assert (0 <= units_of p); [| lia].
  destruct p; cbn; try lia;
    exact (seeded_quantum_nonneg _ _ (Hjob _ eq_refl) (Hquant _ _ eq_refl)
             Hjobs).
Qed.

Lemma sound_start (w : world) : sound jobs total [] (start jobs total w).
Proof.
  unfold sound, start.
  cbn [task_queue threads ipu_semaphore new_semaphore total_ipus available_ipus].
  unfold units_inside.
  rewrite (count_pcs_replicate units_of (Z.to_nat total) AtLoop eq_refl).
  repeat split.
  - apply Forall_forall. auto.
  - apply Forall_replicate. split; cbn; intros; discriminate.
  - constructor.
  - lia.
  - intros Htotal _. exact Htotal.
Qed.

Lemma sound_exec (w : world) sched acts s :
  exec sys program_path sched (start jobs total w) = Some (acts, s) ->
  sound jobs total acts s.
Proof.
  intros Hexec.
  exact (exec_invariant sys program_path _ sound_step sched [] _ _ _
           (sound_start w) Hexec).
Qed.

Lemma sound_available (acts : list (nat * action)) (s : state) :
  sound jobs total acts s ->
  0 <= total -> Forall (fun j => 0 <= numTiles j) jobs ->
  0 <= available_ipus (ipu_semaphore s) <= total
  /\ 0 <= units_inside (threads s) <= total.
Proof.
  intros (_ & Hts & _ & _ & Hcons & Hnn) Htotal Hjobs.
  specialize (Hnn Htotal Hjobs).
  pose proof (units_inside_nonneg _ Hts Hjobs). lia.
Qed.

End Soundness.

(** X1.  Whatever the schedule and however the jobs end, every job in the
    queue, every job a thread holds and every job an action names is one of
    the jobs the queue was seeded with; and the quantum a thread holds or
    waits for is the one [worker] computes from that job's tile count. *)
Theorem workers_only_handle_seeded_jobs
    (sys : os) (program_path : string) (jobs : list job) (total : Z)
    (w : world) (sched : list nat) (acts : list (nat * action)) (s : state) :
  exec sys program_path sched (start jobs total w) = Some (acts, s) ->
  (forall j, j ∈ task_queue s -> j ∈ jobs)
  /\ (forall i p j, threads s !! i = Some p -> job_of_pc p = Some j -> j ∈ jobs)
  /\ (forall i a j, (i, a) ∈ acts -> job_of_action a = Some j -> j ∈ jobs)
  /\ (forall i p j n,
        threads s !! i = Some p -> quantum_of_pc p = Some (j, n) ->
        ipus_needed (numTiles j) = Ret n).
Proof.
  intros Hexec.
  destruct (sound_exec _ _ _ _ _ _ _ _ Hexec) as (Hq & Hts & Hacts & _).
  repeat split.
  - intros j Hj. exact (proj1 (Forall_forall _ _) Hq j Hj).
  - intros i p j Hp Hj.
    exact (proj1 (Forall_lookup_1 _ _ _ _ Hts Hp) j Hj).
  - intros i a j Hin Hj.
    exact (proj1 (Forall_forall _ _) Hacts (i, a) Hin j Hj).
  - intros i p j n Hp Hj.
    exact (proj2 (Forall_lookup_1 _ _ _ _ Hts Hp) j n Hj).
Qed.

Lemma workers_only_handle_seeded_jobs_witness :
  exists acts s,
    exec (os_exiting 1 "failed") "benchmark" (replicate 9 0%nat)
         (start [hook_job] 16 empty_world) = Some (acts, s)
    /\ task_queue s = [hook_job]
    /\ forall j, j ∈ task_queue s -> j ∈ [hook_job].
Proof.
  destruct (exec (os_exiting 1 "failed") "benchmark" (replicate 9 0%nat)
              (start [hook_job] 16 empty_world)) as [[acts s] |] eqn:Hexec;
    [| vm_compute in Hexec; discriminate].
  exists acts, s. split; [reflexivity |]. split.
  - vm_compute in Hexec. injection Hexec as _ <-. reflexivity.
  - exact (proj1 (workers_only_handle_seeded_jobs _ _ _ _ _ _ _ _ Hexec)).
Defined.

(** X2.  In every state the workers reach, the units that are not available
    are exactly the units held by the threads inside the [with] block.  When
    the total and the tile counts are not negative, the available units stay
    between 0 and the total, so the units in use at one time never exceed the
    total; and when no thread is inside the block all units are available. *)
Theorem workers_units_are_conserved
    (sys : os) (program_path : string) (jobs : list job) (total : Z)
    (w : world) (sched : list nat) (acts : list (nat * action)) (s : state) :
  exec sys program_path sched (start jobs total w) = Some (acts, s) ->
  total_ipus (ipu_semaphore s) = total
  /\ available_ipus (ipu_semaphore s) + units_inside (threads s) = total
  /\ (0 <= total -> Forall (fun j => 0 <= numTiles j) jobs ->
      0 <= available_ipus (ipu_semaphore s) <= total
      /\ 0 <= units_inside (threads s) <= total)
  /\ ((forall i p, threads s !! i = Some p -> inside_with p = None) ->
      available_ipus (ipu_semaphore s) = total).
Proof.
  intros Hexec.
  pose proof (sound_exec _ _ _ _ _ _ _ _ Hexec) as Hsound.
  pose proof Hsound as (_ & _ & _ & Htot & Hcons & _).
  split; [exact Htot |]. split; [exact Hcons |]. split.
  - exact (sound_available _ _ _ _ Hsound).
  - intros Hnone.
    assert (Hzero : units_inside (threads s) = 0); [| lia].
    clear -Hnone. unfold units_inside.
    induction (threads s) as [| p ts IH]; [reflexivity |].
    rewrite count_pcs_cons, IH.
    + unfold units_of. rewrite (Hnone 0%nat p eq_refl). reflexivity.
    + intros i q Hq. exact (Hnone (S i) q Hq).
Qed.

Lemma workers_units_are_conserved_witness :
  exists acts s,
    exec (os_exiting 0 "") "benchmark" [0; 1; 0; 1; 0; 1; 0]%nat
         (start [hook_job; hook_job] 16 empty_world) = Some (acts, s)
    /\ available_ipus (ipu_semaphore s) = 8
    /\ units_inside (threads s) = 8
    /\ available_ipus (ipu_semaphore s) + units_inside (threads s) = 16.
Proof.
  destruct (exec (os_exiting 0 "") "benchmark" [0; 1; 0; 1; 0; 1; 0]%nat
              (start [hook_job; hook_job] 16 empty_world))
    as [[acts s] |] eqn:Hexec;
    [| vm_compute in Hexec; discriminate].
  exists acts, s. split; [reflexivity |].
  destruct (workers_units_are_conserved _ _ _ _ _ _ _ _ Hexec)
    as (_ & Hcons & _).
  assert (Hav : available_ipus (ipu_semaphore s) = 8).
  { vm_compute in Hexec. injection Hexec as _ <-. reflexivity. }
  split; [exact Hav |]. split; [lia | exact Hcons].
Defined.

(** ** Threads that never move again *)

Section Frozen.

Variable sys : os.
Variable program_path : string.

Lemma exec_app sched1 sched2 s0 acts1 s1 acts2 s2 :
  exec sys program_path sched1 s0 = Some (acts1, s1) ->
  exec sys program_path sched2 s1 = Some (acts2, s2) ->
  exec sys program_path (sched1 ++ sched2) s0 = Some (acts1 ++ acts2, s2).
Proof.
  revert s0 acts1. induction sched1 as [| i sched1 IH]; intros s0 acts1 H1 H2.
  - cbn in H1. injection H1 as <- <-. exact H2.
  - cbn in H1 |- *.
    destruct (step sys program_path i s0) as [[a s'] |]; [| discriminate].
    destruct (exec sys program_path sched1 s') as [[acts' s''] |] eqn:Hrest;
      [| discriminate].
    injection H1 as <- <-.
    rewrite (IH _ _ Hrest H2). reflexivity.
Qed.

(** A thread that no step of its own can move, in any state satisfying a
    property that every step keeps, stays where it is. *)
Lemma frozen_thread (I : state -> Prop) (i : nat) (p : pc) :
  (forall s k a s',
      I s -> threads s !! i = Some p ->
      step sys program_path k s = Some (a, s') -> I s' /\ k <> i) ->
  forall sched s acts s',
    I s -> threads s !! i = Some p ->
    exec sys program_path sched s = Some (acts, s') ->
    I s' /\ threads s' !! i = Some p.
Proof.
  intros Hkeep.
  induction sched as [| k sched IH]; intros s acts s' HI Hp Hexec;
    cbn in Hexec.
  - injection Hexec as _ <-. split; assumption.
  - destruct (step sys program_path k s) as [[a s1] |] eqn:Hstep;
      [| discriminate].
    destruct (exec sys program_path sched s1) as [[acts1 s2] |] eqn:Hrest;
      [| discriminate].
    injection Hexec as _ <-.
    destruct (Hkeep _ _ _ _ HI Hp Hstep) as [HI1 Hne].
    apply (IH s1 acts1); [exact HI1 | | exact Hrest].
    rewrite (step_other_thread sys program_path _ _ _ _ _ Hstep Hne). exact Hp.
Qed.

Lemma in_flight_lookup (ts : list pc) (i : nat) (p : pc) :
  ts !! i = Some p -> attempt p <= in_flight ts.
Proof.
  revert i. induction ts as [| x ts IH]; intros [| i] Hi; try discriminate.
  - injection Hi as ->. rewrite in_flight_cons.
    pose proof (in_flight_nonneg ts). lia.
  - rewrite in_flight_cons. pose proof (IH i Hi).
    assert (0 <= attempt x) by (destruct x; cbn; lia). lia.
Qed.

Lemma accounted_exec jobs total w sched acts s :
  exec sys program_path sched (start jobs total w) = Some (acts, s) ->
  accounted (Z.of_nat (length jobs)) acts s.
Proof.
  intros Hexec.
  exact (exec_invariant sys program_path _
           (accounted_step sys program_path (Z.of_nat (length jobs)))
           sched [] _ _ _ (accounted_start jobs total w) Hexec).
Qed.

Lemma attempt_blocks_join jobs total w sched acts s i p :
  exec sys program_path sched (start jobs total w) = Some (acts, s) ->
  threads s !! i = Some p -> attempt p = 1 ->
  join_returns s = false.
Proof.
  intros Hexec Hp Hone.
  destruct (accounted_exec _ _ _ _ _ _ Hexec) as [_ Hflight].
  pose proof (in_flight_lookup _ _ _ Hp).
  unfold join_returns. apply Z.eqb_neq. lia.
Qed.

Lemma drained_of_join jobs total w sched acts s :
  exec sys program_path sched (start jobs total w) = Some (acts, s) ->
  join_returns s = true -> drained s.
Proof.
  intros Hexec Hjoin%Z.eqb_eq.
  destruct (accounted_exec _ _ _ _ _ _ Hexec) as [_ Hflight].
  pose proof (in_flight_nonneg (threads s)).
  unfold drained.
  destruct (task_queue s); cbn [length] in Hflight; [| lia].
  repeat split; lia.
Qed.

Lemma drained_step i s k a s' :
  drained s -> threads s !! i = Some AtGet ->
  step sys program_path k s = Some (a, s') ->
  drained s' /\ k <> i.
Proof.
  intros (Hq & Hun & Hfl) Hi Hstep.
  step_inv Hstep;
    pose proof (in_flight_zero _ _ _ Hfl Hpc) as Hzero;
    cbn [attempt] in Hzero; try discriminate Hzero; try congruence.
  split; [| congruence].
  unfold drained. cbn [task_queue unfinished_tasks threads].
  rewrite (in_flight_insert _ _ _ _ Hpc). cbn [attempt].
  repeat split; [assumption | lia].
Qed.

Lemma died_step i e s k a s' :
  True -> threads s !! i = Some (Died e) ->
  step sys program_path k s = Some (a, s') ->
  True /\ k <> i.
Proof.
  intros _ Hi Hstep. split; [exact I |]. intros ->.
  unfold step in Hstep. rewrite Hi in Hstep. discriminate.
Qed.

End Frozen.

(** X3.  Once a worker thread has died from an exception (one that left
    [run_program], or one raised while computing the quantum), it stays dead
    and its job is never reported done: in every later state
    [task_queue.join()] cannot return. *)
Theorem dead_worker_blocks_join_forever
    (sys : os) (program_path : string) (jobs : list job) (total : Z)
    (w : world) (sched : list nat) (acts : list (nat * action)) (s : state)
    (i : nat) (e : exn)
    (sched' : list nat) (acts' : list (nat * action)) (s' : state) :
  exec sys program_path sched (start jobs total w) = Some (acts, s) ->
  threads s !! i = Some (Died e) ->
  exec sys program_path sched' s = Some (acts', s') ->
  threads s' !! i = Some (Died e) /\ join_returns s' = false.
Proof.
  intros Hexec Hdied Hlater.
  destruct (frozen_thread sys program_path (fun _ => True) i (Died e)
              (died_step sys program_path i e) _ _ _ _ I Hdied Hlater)
    as [_ Hstill].
  split; [exact Hstill |].
  exact (attempt_blocks_join _ _ _ _ _ _ _ _ _ _
           (exec_app _ _ _ _ _ _ _ _ _ Hexec Hlater) Hstill eq_refl).
Qed.

Lemma dead_worker_blocks_join_forever_witness :
  exists acts s acts' s',
    exec (os_exiting 0 "") "benchmark" (replicate 5 0%nat)
         (start [blocked_profiling_job] 16 (world_with_file "prof"))
    = Some (acts, s)
    /\ threads s !! 0%nat = Some (Died (Exn FileExistsError "prof"))
    /\ exec (os_exiting 0 "") "benchmark" [1; 2; 3]%nat s = Some (acts', s')
    /\ join_returns s' = false.
Proof.
  destruct (exec (os_exiting 0 "") "benchmark" (replicate 5 0%nat)
              (start [blocked_profiling_job] 16 (world_with_file "prof")))
    as [[acts s] |] eqn:Hexec; [| vm_compute in Hexec; discriminate].
  assert (Hdied : threads s !! 0%nat = Some (Died (Exn FileExistsError "prof"))).
  { vm_compute in Hexec. injection Hexec as _ <-. reflexivity. }
  destruct (exec (os_exiting 0 "") "benchmark" [1; 2; 3]%nat s)
    as [[acts' s'] |] eqn:Hlater.
  - exists acts, s, acts', s'. repeat split; try assumption.
    exact (proj2 (dead_worker_blocks_join_forever _ _ _ _ _ _ _ _ _ _ _ _ _
                    Hexec Hdied Hlater)).
  - vm_compute in Hexec. injection Hexec as _ <-.
    vm_compute in Hlater. discriminate Hlater.
Defined.

(** X4.  The test of [task_queue.empty()] and the [get] that follows are
    two steps.  A worker that passed the test and finds the queue drained
    when it reaches [get] is blocked there for good: once the join can
    return, nothing is ever put on the queue again, so that worker never
    moves, and [main]'s loop over [thread.join()] never returns. *)
Theorem worker_blocked_in_get_after_drain
    (sys : os) (program_path : string) (jobs : list job) (total : Z)
    (w : world) (sched : list nat) (acts : list (nat * action)) (s : state)
    (i : nat)
    (sched' : list nat) (acts' : list (nat * action)) (s' : state) :
  exec sys program_path sched (start jobs total w) = Some (acts, s) ->
  join_returns s = true ->
  threads s !! i = Some AtGet ->
  exec sys program_path sched' s = Some (acts', s') ->
  threads s' !! i = Some AtGet
  /\ step sys program_path i s' = None
  /\ task_queue s' = []
  /\ main_returns s' = false.
Proof.
  intros Hexec Hjoin Hget Hlater.
  pose proof (drained_of_join _ _ _ _ _ _ _ _ Hexec Hjoin) as Hdrained.
  destruct (frozen_thread sys program_path drained i AtGet
              (drained_step sys program_path i) _ _ _ _ Hdrained Hget Hlater)
    as [(Hq & _) Hstill].
  split; [exact Hstill |]. split; [| split; [exact Hq |]].
  - unfold step. rewrite Hstill, Hq. reflexivity.
  - unfold main_returns. apply andb_false_iff. right.
    apply not_true_is_false. intros Hall.
    rewrite forallb_forall in Hall.
    assert (Hin : In AtGet (threads s')).
    { apply list_elem_of_In. apply list_elem_of_lookup. eauto. }
    specialize (Hall _ Hin). discriminate.
Qed.

(** Two workers, one job that succeeds: both pass the test, worker 0 takes
    the job and completes it, worker 1 is left in [get]. *)
Lemma worker_blocked_in_get_after_drain_witness :
  exists acts s acts' s',
    exec (os_exiting 0 "") "benchmark" [0; 1; 0; 0; 0; 0; 0]%nat
         (start [hook_job] 16 empty_world) = Some (acts, s)
    /\ join_returns s = true
    /\ threads s !! 1%nat = Some AtGet
    /\ exec (os_exiting 0 "") "benchmark" [0; 2; 3]%nat s = Some (acts', s')
    /\ step (os_exiting 0 "") "benchmark" 1 s' = None
    /\ main_returns s' = false.
Proof.
  destruct (exec (os_exiting 0 "") "benchmark" [0; 1; 0; 0; 0; 0; 0]%nat
              (start [hook_job] 16 empty_world))
    as [[acts s] |] eqn:Hexec; [| vm_compute in Hexec; discriminate].
  assert (Hjoin : join_returns s = true).
  { vm_compute in Hexec. injection Hexec as _ <-. reflexivity. }
  assert (Hget : threads s !! 1%nat = Some AtGet).
  { vm_compute in Hexec. injection Hexec as _ <-. reflexivity. }
  destruct (exec (os_exiting 0 "") "benchmark" [0; 2; 3]%nat s)
    as [[acts' s'] |] eqn:Hlater.
  - exists acts, s, acts', s'.
    destruct (worker_blocked_in_get_after_drain _ _ _ _ _ _ _ _ _ _ _ _
                Hexec Hjoin Hget Hlater) as (_ & Hstuck & _ & Hmain).
    repeat split; assumption.
  - vm_compute in Hexec. injection Hexec as _ <-.
    vm_compute in Hlater. discriminate Hlater.
Defined.

(** ** A job too large for the pool *)

Section Oversized.

Variable sys : os.
Variable program_path : string.
Variable jobs : list job.
Variable total : Z.
Hypothesis total_nonneg : 0 <= total.
Hypothesis tiles_nonneg : Forall (fun j => 0 <= numTiles j) jobs.

Lemma oversized_step i j n s k a s' :
  total < n ->
  (exists acts, sound jobs total acts s) ->
  threads s !! i = Some (AtEnter j n) ->
  step sys program_path k s = Some (a, s') ->
  (exists acts, sound jobs total acts s') /\ k <> i.
Proof.
  intros Hn [acts Hsound] Hi Hstep. split.
  - eexists. exact (sound_step _ _ _ _ _ _ _ _ _ Hsound Hstep).
  - intros ->. unfold step in Hstep. rewrite Hi in Hstep.
    destruct (enter n (ipu_semaphore s)) as [sm |] eqn:He; [| discriminate].
    apply enter_some in He as [Hle _].
    pose proof (sound_available _ _ _ _ Hsound total_nonneg tiles_nonneg).
    lia.
Qed.

End Oversized.

(** X5.  With a total and tile counts that are not negative, a worker that
    took a job whose quantum exceeds the total waits in [__enter__] in every
    later state: it cannot move, the job is never reported done, and
    [task_queue.join()] cannot return. *)
Theorem oversized_job_blocks_its_worker
    (sys : os) (program_path : string) (jobs : list job) (total : Z)
    (w : world) (sched : list nat) (acts : list (nat * action)) (s : state)
    (i : nat) (j : job) (n : Z)
    (sched' : list nat) (acts' : list (nat * action)) (s' : state) :
  0 <= total ->
  Forall (fun j => 0 <= numTiles j) jobs ->
  exec sys program_path sched (start jobs total w) = Some (acts, s) ->
  threads s !! i = Some (AtEnter j n) ->
  total < n ->
  exec sys program_path sched' s = Some (acts', s') ->
  threads s' !! i = Some (AtEnter j n)
  /\ step sys program_path i s' = None
  /\ join_returns s' = false.
Proof.
  intros Htotal Htiles Hexec Hi Hn Hlater.
  pose proof (sound_exec _ _ _ _ _ _ _ _ Hexec) as Hsound.
  destruct (frozen_thread sys program_path
              (fun s => exists acts, sound jobs total acts s) i (AtEnter j n)
              (fun s k a s' =>
                 oversized_step sys program_path jobs total Htotal Htiles
                                i j n s k a s' Hn)
              _ _ _ _ (ex_intro _ acts Hsound) Hi Hlater)
    as [[acts1 Hsound'] Hstill].
  split; [exact Hstill |]. split.
  - unfold step. rewrite Hstill.
    pose proof (sound_available _ _ _ _ Hsound' Htotal Htiles) as [Hav _].
    unfold enter.
    destruct (Z.ltb_spec (available_ipus (ipu_semaphore s')) n);
      [reflexivity | lia].
  - exact (attempt_blocks_join _ _ _ _ _ _ _ _ _ _
             (exec_app _ _ _ _ _ _ _ _ _ Hexec Hlater) Hstill eq_refl).
Qed.

(** Twenty IPUs are asked of a pool of sixteen. *)
Lemma oversized_job_blocks_its_worker_witness :
  exists acts s acts' s',
    exec (os_exiting 0 "") "benchmark" [0; 0]%nat
         (start [oversized_job] 16 empty_world) = Some (acts, s)
    /\ threads s !! 0%nat = Some (AtEnter oversized_job 20)
    /\ exec (os_exiting 0 "") "benchmark" [1; 2; 3]%nat s = Some (acts', s')
    /\ step (os_exiting 0 "") "benchmark" 0 s' = None
    /\ join_returns s' = false.
Proof.
  destruct (exec (os_exiting 0 "") "benchmark" [0; 0]%nat
              (start [oversized_job] 16 empty_world))
    as [[acts s] |] eqn:Hexec; [| vm_compute in Hexec; discriminate].
  assert (Hi : threads s !! 0%nat = Some (AtEnter oversized_job 20)).
  { vm_compute in Hexec. injection Hexec as _ <-. reflexivity. }
  destruct (exec (os_exiting 0 "") "benchmark" [1; 2; 3]%nat s)
    as [[acts' s'] |] eqn:Hlater.
  - exists acts, s, acts', s'.
    destruct (oversized_job_blocks_its_worker
                (os_exiting 0 "") "benchmark" [oversized_job] 16 empty_world
                _ _ _ 0%nat oversized_job 20 _ _ _
                ltac:(lia) ltac:(repeat constructor; cbn; lia)
                Hexec Hi ltac:(lia) Hlater) as (_ & Hstuck & Hjoin).
    repeat split; assumption.
  - vm_compute in Hexec. injection Hexec as _ <-.
    vm_compute in Hlater. discriminate Hlater.
Defined.

(** ** When every worker has left its loop *)

Section Attended.

Variable sys : os.
Variable program_path : string.

Lemma attended_step (acts : list (nat * action)) s k a s' :
  attended s -> step sys program_path k s = Some (a, s') -> attended s'.
Proof.
  intros _ Hstep. unfold attended.
  step_inv Hstep; cbn [task_queue threads]; intros Hne;
    pose proof (lookup_lt_Some _ _ _ Hpc) as Hlt;
    try congruence;
    (eexists k, _; split; [apply list_lookup_insert_eq; exact Hlt |]);
    try discriminate.
Qed.

Lemma attended_start jobs total w :
  jobs = [] \/ 0 < total -> attended (start jobs total w).
Proof.
  intros [-> | Htotal] Hne; [contradiction |].
  exists 0%nat, AtLoop. split; [| discriminate].
  unfold start. cbn [threads]. apply lookup_replicate_2. lia.
Qed.

Lemma all_finished_in_flight (ts : list pc) :
  (forall i p, ts !! i = Some p -> p = Finished) -> in_flight ts = 0.
Proof.
  induction ts as [| p ts IH]; intros Hall; [reflexivity |].
  rewrite in_flight_cons, IH.
  - rewrite (Hall 0%nat p eq_refl). reflexivity.
  - intros i q Hq. exact (Hall (S i) q Hq).
Qed.

End Attended.

(** X6.  Workers may leave early, yet no job is lost: if there is a worker
    at all (or nothing to do) and in some state every worker has left its
    loop normally, then the queue is empty, every job put on it has been
    reported done, the join returns and so does [main]. *)
Theorem all_workers_finished_means_drained
    (sys : os) (program_path : string) (jobs : list job) (total : Z)
    (w : world) (sched : list nat) (acts : list (nat * action)) (s : state) :
  jobs = [] \/ 0 < total ->
  exec sys program_path sched (start jobs total w) = Some (acts, s) ->
  (forall i p, threads s !! i = Some p -> p = Finished) ->
  task_queue s = []
  /\ join_returns s = true
  /\ main_returns s = true
  /\ count_actions is_task_done acts
     = Z.of_nat (length jobs) + count_actions is_put acts.
Proof.
  intros Hsome Hexec Hall.
  pose proof (exec_invariant sys program_path (fun _ => attended)
                (attended_step sys program_path) sched [] _ _ _
                (attended_start jobs total w Hsome) Hexec) as Hatt.
  cbn beta in Hatt.
  assert (Hq : task_queue s = []).
  { destruct (task_queue s) as [| j q] eqn:Heq; [reflexivity |].
    destruct Hatt as (i & p & Hp & Hnot); [rewrite Heq; discriminate |].
    elim Hnot. exact (Hall i p Hp). }
  destruct (accounted_exec _ _ _ _ _ _ _ _ Hexec) as [Hcount Hflight].
  rewrite Hq, (all_finished_in_flight _ Hall) in Hflight. cbn in Hflight.
  assert (Hjoin : join_returns s = true)
    by (unfold join_returns; apply Z.eqb_eq; lia).
  split; [exact Hq |]. split; [exact Hjoin |]. split; [| lia].
  unfold main_returns. rewrite Hjoin. cbn [andb].
  apply forallb_forall. intros p Hin.
  apply list_elem_of_In, list_elem_of_lookup in Hin as [i Hp].
  rewrite (Hall i p Hp). reflexivity.
Qed.

Lemma all_workers_finished_means_drained_witness :
  exists acts s,
    exec (os_exiting 0 "") "benchmark" [0; 0; 1; 2; 0; 0; 0; 0; 3; 0]%nat
         (start [hook_job] 4 empty_world) = Some (acts, s)
    /\ threads s = [Finished; Finished; Finished; Finished]
    /\ main_returns s = true.
Proof.
  destruct (exec (os_exiting 0 "") "benchmark"
              [0; 0; 1; 2; 0; 0; 0; 0; 3; 0]%nat
              (start [hook_job] 4 empty_world))
    as [[acts s] |] eqn:Hexec; [| vm_compute in Hexec; discriminate].
  assert (Hts : threads s = [Finished; Finished; Finished; Finished]).
  { vm_compute in Hexec. injection Hexec as _ <-. reflexivity. }
  exists acts, s. split; [reflexivity |]. split; [exact Hts |].
  apply (all_workers_finished_means_drained
           (os_exiting 0 "") "benchmark" [hook_job] 4 empty_world _ _ _
           (or_intror (eq_refl : 0 < 4)) Hexec).
  clear Hexec. intros i p Hp. rewrite Hts in Hp.
  destruct i as [| [| [| [| i]]]]; simpl in Hp; try discriminate Hp;
    injection Hp as <-; reflexivity.
Defined.

(** ** Each seeded job succeeds exactly once *)

Section Tally.

Variable sys : os.
Variable program_path : string.
Variable P : job -> bool.

Lemma count_jobs_cons (j : job) (js : list job) :
  count_jobs P (j :: js) = (if P j then 1 else 0) + count_jobs P js.
Proof.
  unfold count_jobs. destruct (P j) eqn:Hj.
  - rewrite filter_cons_True by exact Hj. cbn [length]. lia.
  - rewrite filter_cons_False by (rewrite Hj; discriminate). lia.
Qed.

Lemma count_jobs_snoc (j : job) (js : list job) :
  count_jobs P (js ++ [j]) = count_jobs P js + (if P j then 1 else 0).
Proof.
  unfold count_jobs. rewrite filter_app, length_app.
  change (Z.of_nat (length (filter (fun j => P j = true) [j])))
    with (count_jobs P [j]).
  rewrite Nat2Z.inj_add. fold (count_jobs P [j]).
  rewrite (count_jobs_cons j []). unfold count_jobs. cbn. lia.
Qed.

Lemma count_pcs_bounds (f g : pc -> Z) (ts : list pc) :
  (forall p, 0 <= f p <= g p) -> 0 <= count_pcs f ts <= count_pcs g ts.
Proof.
  intros Hfg. induction ts as [| p ts IH]; [cbn; lia |].
  rewrite !count_pcs_cons. pose proof (Hfg p). lia.
Qed.

Lemma tallied_step seeded acts s i a s' :
  tallied P seeded acts s ->
  step sys program_path i s = Some (a, s') ->
  tallied P seeded (acts ++ [(i, a)]) s'.
Proof.
  intros (Hqueue & Hruns & Hputs & Hraises) Hstep. unfold tallied.
  rewrite !count_actions_snoc.
  step_inv Hstep;
    cbn [snd is_get is_get_raises is_run_true is_run_false is_run_raises
         is_put_of task_queue threads];
    rewrite !(count_pcs_insert _ _ _ _ _ Hpc);
    cbn [before_run before_put dying];
    repeat match goal with
      | H : task_queue _ = _ |- _ => rewrite H in Hqueue
      end;
    rewrite ?count_jobs_cons, ?count_jobs_snoc in *;
    repeat match goal with
      | |- context [P ?j] => destruct (P j)
      | H : context [P ?j] |- _ => destruct (P j)
      end;
    lia.
Qed.

Lemma tallied_start jobs total w :
  tallied P (count_jobs P jobs) [] (start jobs total w).
Proof.
  unfold tallied, start. cbn [task_queue threads].
  rewrite !count_pcs_replicate by reflexivity.
  unfold count_actions. cbn. lia.
Qed.

End Tally.

(** X7.  When the join can return, each seeded job has run successfully
    exactly once: for every class of jobs, the number of runs that returned
    true equals the number of seeded jobs of that class, the failed runs are
    exactly the jobs put back, and no run raised. *)
Theorem drain_means_every_job_succeeded_once
    (sys : os) (program_path : string) (P : job -> bool) (jobs : list job)
    (total : Z) (w : world) (sched : list nat) (acts : list (nat * action))
    (s : state) :
  exec sys program_path sched (start jobs total w) = Some (acts, s) ->
  join_returns s = true ->
  count_actions (is_run_true P) acts = count_jobs P jobs
  /\ count_actions (is_run_false P) acts = count_actions (is_put_of P) acts
  /\ count_actions (is_run_raises P) acts = 0
  /\ count_actions (is_get_raises P) acts = 0.
Proof.
  intros Hexec Hjoin.
  pose proof (exec_invariant sys program_path _
                (tallied_step sys program_path P (count_jobs P jobs))
                sched [] _ _ _ (tallied_start P jobs total w) Hexec)
    as (Hqueue & Hruns & Hputs & Hraises).
  cbn [app] in *.
  destruct (drained_of_join _ _ _ _ _ _ _ _ Hexec Hjoin) as (Hq & _ & Hfl).
  rewrite Hq in Hqueue. change (count_jobs P []) with 0 in Hqueue.
  assert (Hweights : forall f, (forall p, 0 <= f p <= attempt p) ->
                               count_pcs f (threads s) = 0).
  { intros f Hf. pose proof (count_pcs_bounds f attempt (threads s) Hf).
    change (count_pcs attempt (threads s)) with (in_flight (threads s)) in *.
    lia. }
  rewrite (Hweights (before_run P)) in Hruns
    by (intros []; cbn; try destruct (P j); lia).
  rewrite (Hweights (before_put P)) in Hputs
    by (intros []; cbn; try destruct (P j); lia).
  rewrite (Hweights dying) in Hraises by (intros []; cbn; lia).
  assert (Hnn : forall f, 0 <= count_actions f acts)
    by (intros f; unfold count_actions; lia).
  pose proof (Hnn (is_get_raises P)). pose proof (Hnn (is_run_raises P)).
  lia.
Qed.

(** The job fails twice and succeeds at the third run. *)
Lemma drain_means_every_job_succeeded_once_witness :
  exists acts s,
    exec (os_failing_first 2) "benchmark" (replicate 22 0%nat)
         (start [hook_job] 16 empty_world) = Some (acts, s)
    /\ join_returns s = true
    /\ count_actions (is_run_true (fun _ => true)) acts = 1
    /\ count_actions (is_run_false (fun _ => true)) acts = 2.
Proof.
  destruct (exec (os_failing_first 2) "benchmark" (replicate 22 0%nat)
              (start [hook_job] 16 empty_world)) as [[acts s] |] eqn:Hexec;
    [| vm_compute in Hexec; discriminate].
  assert (Hjoin : join_returns s = true).
  { vm_compute in Hexec. injection Hexec as _ <-. reflexivity. }
  exists acts, s. split; [reflexivity |]. split; [exact Hjoin |].
  destruct (drain_means_every_job_succeeded_once
              _ _ (fun _ => true) _ _ _ _ _ _ Hexec Hjoin)
    as (Htrue & Hfalse & _).
  split; [exact Htrue |].
  rewrite Hfalse. vm_compute in Hexec. injection Hexec as <- _. reflexivity.
Defined.

(** ** When a waiting caller may pass *)

Section CallersConserved.

Import Callers.

Lemma conserved_step (total : Z) (o : op) (st st' : state) :
  conserved total st -> step o st = Some st' -> conserved total st'.
Proof.
  intros [Htot Hheld] Hstep.
  destruct o as [i n | i | i]; cbn in Hstep;
    destruct (callers st !! i) as [[| m | m] |] eqn:Hi; try discriminate.
  - injection Hstep as <-. unfold conserved. cbn [sem callers].
    rewrite (held_units_insert _ _ _ _ Hi). cbn [held]. split; lia.
  - destruct (enter m (sem st)) as [sm |] eqn:He; [| discriminate].
    apply enter_some in He as [_ ->]. injection Hstep as <-.
    unfold conserved. cbn [sem callers total_ipus available_ipus].
    rewrite (held_units_insert _ _ _ _ Hi). cbn [held]. split; lia.
  - injection Hstep as <-.
    unfold conserved, leave. cbn [sem callers total_ipus available_ipus].
    rewrite (held_units_insert _ _ _ _ Hi). cbn [held]. split; lia.
Qed.

Lemma conserved_run (total : Z) (ops : list op) :
  forall st st',
    conserved total st -> run ops st = Some st' -> conserved total st'.
Proof.
  induction ops as [| o ops IH]; intros st st' Hc Hrun; cbn in Hrun.
  - injection Hrun as <-. exact Hc.
  - destruct (step o st) as [st1 |] eqn:Hstep; [| discriminate].
    exact (IH _ _ (conserved_step _ _ _ _ Hc Hstep) Hrun).
Qed.

Lemma conserved_init (total : Z) (ncallers : nat) :
  conserved total (init total ncallers).
Proof.
  unfold conserved, init. cbn [sem callers new_semaphore total_ipus
                               available_ipus].
  rewrite held_units_idle. split; lia.
Qed.

End CallersConserved.

(** X8.  A caller waiting in [__enter__] for [n] units can leave its wait
    loop exactly when [n] is at most the total minus the units the others
    hold; in particular a request of at most the total passes whenever
    nobody holds anything.  Passing and then leaving the [with] block gives
    the semaphore back as it was. *)
Theorem waiting_caller_passes_iff_request_fits
    (total : Z) (ncallers : nat) (ops : list Callers.op) (st : Callers.state)
    (i : nat) (n : Z) :
  Callers.run ops (Callers.init total ncallers) = Some st ->
  Callers.callers st !! i = Some (Callers.Waiting n) ->
  (is_Some (Callers.step (Callers.Pass i) st)
   <-> n <= total - Callers.held_units (Callers.callers st))
  /\ (Callers.held_units (Callers.callers st) = 0 -> n <= total ->
      is_Some (Callers.step (Callers.Pass i) st))
  /\ (forall st1 st2,
        Callers.step (Callers.Pass i) st = Some st1 ->
        Callers.step (Callers.Exit i) st1 = Some st2 ->
        Callers.sem st2 = Callers.sem st).
Proof.
  intros Hrun Hi.
  destruct (conserved_run _ _ _ _ (conserved_init total ncallers) Hrun)
    as [Htot Hheld].
  assert (Hpass : is_Some (Callers.step (Callers.Pass i) st)
                  <-> n <= total - Callers.held_units (Callers.callers st)).
  { cbn [Callers.step]. rewrite Hi. unfold enter.
    destruct (Z.ltb_spec (available_ipus (Callers.sem st)) n).
    - split; [intros [? [=]] | lia].
    - split; [lia | eauto]. }
  split; [exact Hpass |]. split.
  - intros Hnone Hn. apply Hpass. lia.
  - intros st1 st2 H1 H2. cbn [Callers.step] in H1. rewrite Hi in H1.
    destruct (enter n (Callers.sem st)) as [sm |] eqn:He; [| discriminate].
    apply enter_some in He as [_ ->]. injection H1 as <-.
    pose proof (lookup_lt_Some _ _ _ Hi) as Hlt.
    cbn [Callers.step Callers.callers] in H2.
    rewrite (list_lookup_insert_eq _ _ _ Hlt) in H2.
    injection H2 as <-. cbn [Callers.sem]. unfold leave.
    cbn [total_ipus available_ipus].
    destruct (Callers.sem st) as [t a]. cbn. f_equal. lia.
Qed.

Lemma waiting_caller_passes_iff_request_fits_witness :
  is_Some (Callers.step (Callers.Pass 1)
             (Callers.State (Semaphore 16 8)
                [Callers.Holding 8; Callers.Waiting 12]))
  <-> 12 <= 16 - Callers.held_units [Callers.Holding 8; Callers.Waiting 12].
Proof.
  apply (waiting_caller_passes_iff_request_fits 16 2 waiting_then_holding
           (Callers.State (Semaphore 16 8)
              [Callers.Holding 8; Callers.Waiting 12]) 1 12);
    reflexivity.
Defined.

(** ** The quantum over the whole range of tile counts *)

Section QuantumRange.

Import PyFloat.

Lemma log2_bounds (a : Z) :
  0 < a -> 2 ^ Z.log2 a <= a < 2 ^ (Z.log2 a + 1).
Proof. intros Ha. exact (Z.log2_spec a Ha). Qed.

Lemma quotient_exponent_ge (a b : Z) :
  Z.log2 a - Z.log2 b - 1 <= quotient_exponent a b.
Proof.
  unfold quotient_exponent.
  destruct (0 <=? Z.log2 a - Z.log2 b);
    match goal with |- _ <= (if ?c then _ else _) => destruct c end; lia.
Qed.

(** With an exponent [e] of at most [log2 a - log2 b - 52], the quotient
    scaled by [2 ^ - e] is at least one. *)
Lemma scaled_up_quotient (a b e : Z) :
  0 < a -> 0 < b -> 0 <= e -> e <= Z.log2 a - Z.log2 b - 52 ->
  b * 2 ^ e <= a.
Proof.
  intros Ha Hb He Hle.
  pose proof (log2_bounds a Ha) as [Hla _].
  pose proof (log2_bounds b Hb) as [_ Hlb].
  pose proof (Z.log2_nonneg b) as Hnb.
  assert (Hpow : 2 ^ (Z.log2 b + 1) * 2 ^ e <= 2 ^ Z.log2 a).
  { rewrite <- Z.pow_add_r by lia. apply Z.pow_le_mono_r; lia. }
  assert (0 < 2 ^ e) by (apply Z.pow_pos_nonneg; lia).
  nia.
Qed.

Lemma scaled_down_quotient (a b e : Z) :
  0 < a -> 0 < b -> e < 0 -> e <= Z.log2 a - Z.log2 b - 52 ->
  b <= a * 2 ^ (- e).
Proof.
  intros Ha Hb He Hle.
  pose proof (log2_bounds a Ha) as [Hla _].
  pose proof (log2_bounds b Hb) as [_ Hlb].
  pose proof (Z.log2_nonneg a) as Hna.
  pose proof (Z.log2_nonneg b) as Hnb.
  assert (Hpow : 2 ^ (Z.log2 b + 1) <= 2 ^ Z.log2 a * 2 ^ (- e)).
  { rewrite <- Z.pow_add_r by lia. apply Z.pow_le_mono_r; lia. }
  assert (0 < 2 ^ (- e)) by (apply Z.pow_pos_nonneg; lia).
  nia.
Qed.

(** A quotient of positive integers in the normal range of the floats:
    the division returns, and its ceiling is between one and [2 * a]. *)
Lemma true_div_in_range (a b : Z) :
  0 < a -> 0 < b ->
  -1021 <= Z.log2 a - Z.log2 b <= 1022 ->
  exists x, true_div a b = Ret x /\ 1 <= ceil x <= 2 * a.
Proof.
  intros Ha Hb Hd.
  pose proof (quotient_exponent_le a b) as Hqle.
  pose proof (quotient_exponent_ge a b) as Hqge.
  unfold true_div, true_div_pos.
  destruct (Z.eqb_spec b 0); [lia |]. destruct (Z.eqb_spec a 0); [lia |].
  rewrite (Z.abs_eq a), (Z.abs_eq b) by lia.
  assert (He : ulp_exponent a b = quotient_exponent a b - 52)
    by (unfold ulp_exponent; lia).
  rewrite He. set (e := quotient_exponent a b - 52) in *.
  destruct (Z.ltb_spec 971 e); [lia |].
  destruct (Z.eqb_spec e 971); [lia |].
  cbn [orb andb res_bind].
  destruct (Z.ltb_spec a 0); [lia |]. destruct (Z.ltb_spec b 0); [lia |].
  cbn [Bool.eqb].
  eexists. split; [reflexivity |].
  unfold ceil. cbn [mant expo].
  destruct (Z.leb_spec 0 e) as [Hpos | Hneg].
  - pose proof (scaled_up_quotient a b e Ha Hb Hpos ltac:(lia)) as Hden.
    assert (Hp : 0 < 2 ^ e) by (apply Z.pow_pos_nonneg; lia).
    assert (Hd0 : 0 < b * 2 ^ e) by (apply Z.mul_pos_pos; lia).
    pose proof (round_half_even_bounds a (b * 2 ^ e)) as Hrnd.
    assert (Hq1 : 1 <= a / (b * 2 ^ e))
      by (apply Z.div_le_lower_bound; lia).
    pose proof (Z.mul_div_le a (b * 2 ^ e) Hd0) as Hmul.
    split; [nia |].
    assert (a / (b * 2 ^ e) * 2 ^ e <= a) by nia.
    assert (2 ^ e <= a) by nia.
    nia.
  - pose proof (scaled_down_quotient a b e Ha Hb Hneg ltac:(lia)) as Hnum.
    assert (Hp : 0 < 2 ^ (- e)) by (apply Z.pow_pos_nonneg; lia).
    pose proof (round_half_even_bounds (a * 2 ^ (- e)) b) as Hrnd.
    assert (Hq1 : 1 <= a * 2 ^ (- e) / b)
      by (apply Z.div_le_lower_bound; lia).
    assert (Hq2 : a * 2 ^ (- e) / b <= a * 2 ^ (- e)).
    { apply Z.div_le_upper_bound; [lia | nia]. }
    fold (ceil_div (round_half_even (a * 2 ^ (- e)) b) (2 ^ (- e))).
    pose proof (ceil_div_bounds (round_half_even (a * 2 ^ (- e)) b)
                  (2 ^ (- e)) Hp) as Hc.
    split; nia.
Qed.

Lemma ipus_needed_in_range (n : Z) :
  1 <= n < float_range ->
  exists q, ipus_needed n = Ret q /\ 4 <= q /\ q mod 4 = 0.
Proof.
  unfold float_range. intros Hn.
  assert (Hlog : Z.log2 n < 1024) by (apply Z.log2_lt_pow2; lia).
  pose proof (Z.log2_nonneg n) as Hln.
  destruct (true_div_in_range n 1472) as (x & Hx & Hcx); [lia | lia | |].
  { change (Z.log2 1472) with 10. lia. }
  assert (Hc : ceil x < 2 ^ 1025).
  { replace (2 ^ 1025) with (2 * 2 ^ 1024)
      by (change 1025 with (Z.succ 1024); rewrite Z.pow_succ_r; lia).
    lia. }
  assert (Hlogc : Z.log2 (ceil x) < 1025) by (apply Z.log2_lt_pow2; lia).
  pose proof (Z.log2_nonneg (ceil x)) as Hlc.
  destruct (true_div_in_range (ceil x) 4) as (y & Hy & Hcy); [lia | lia | |].
  { change (Z.log2 4) with 2. lia. }
  exists (4 * ceil y). unfold ipus_needed.
  rewrite Hx. cbn [res_bind]. rewrite Hy. cbn [res_bind].
  split; [reflexivity |]. split; [lia |].
  rewrite Z.mul_comm. apply Z.mod_mul. lia.
Qed.

Lemma true_div_overflows (n : Z) :
  overflowing_tiles <= n ->
  true_div n 1472
  = Raise (Exn OverflowError "integer division result too large for a float").
Proof.
  unfold overflowing_tiles. intros Hn.
  assert (Hpos : 0 < 2 ^ 1024) by (apply Z.pow_pos_nonneg; lia).
  assert (Hlog : 1034 <= Z.log2 n).
  { apply Z.log2_le_pow2; [lia |].
    replace (2 ^ 1034) with (2 ^ 10 * 2 ^ 1024)
      by (rewrite <- Z.pow_add_r by lia; reflexivity).
    change (2 ^ 10) with 1024. lia. }
  assert (Hqe : 1024 <= quotient_exponent n 1472).
  { unfold quotient_exponent. change (Z.log2 1472) with 10.
    destruct (Z.leb_spec 0 (Z.log2 n - 10)); [| lia].
    destruct (Z.leb_spec (1472 * 2 ^ (Z.log2 n - 10)) n) as [| Hlt]; [lia |].
    destruct (Z.eq_dec (Z.log2 n - 10) 1024) as [Heq | Hne]; [| lia].
    rewrite Heq in Hlt. lia. }
  unfold true_div, true_div_pos.
  destruct (Z.eqb_spec 1472 0); [lia |]. destruct (Z.eqb_spec n 0); [lia |].
  rewrite (Z.abs_eq n) by lia. change (Z.abs 1472) with 1472.
  assert (He : 971 < ulp_exponent n 1472) by (unfold ulp_exponent; lia).
  destruct (Z.ltb_spec 971 (ulp_exponent n 1472)); [| lia].
  reflexivity.
Qed.

End QuantumRange.

(** X9.  For every tile count from 1 up to, but not including, [2 ^ 1024],
    the computation of the quantum returns, and the quantum is a positive
    multiple of 4: a worker never asks for zero units or for a number that
    is not a multiple of the granularity, also where the float division is
    no longer exact. *)
Theorem quantum_is_a_positive_multiple_of_four (tileCount : Z) :
  1 <= tileCount < float_range ->
  exists q, ipus_needed tileCount = Ret q /\ 4 <= q /\ q mod 4 = 0.
Proof. exact (ipus_needed_in_range tileCount). Qed.

Lemma quantum_is_a_positive_multiple_of_four_witness :
  exists q, ipus_needed (max_exact_tiles + 1) = Ret q /\ 4 <= q /\ q mod 4 = 0.
Proof.
  apply (quantum_is_a_positive_multiple_of_four (max_exact_tiles + 1)).
  unfold float_range. split; [vm_compute; discriminate | reflexivity].
Defined.

(** X10.  Up to [1472 * 2 ^ 43] tiles the quantum covers the tiles at 1472
    tiles per unit, it is the least multiple of 4 that does, and it grows
    with the tile count. *)
Theorem quantum_covers_tiles_and_is_least (tileCount tileCount' : Z) :
  1 <= tileCount <= tileCount' ->
  tileCount' <= max_exact_tiles ->
  exists q q',
    ipus_needed tileCount = Ret q
    /\ ipus_needed tileCount' = Ret q'
    /\ tileCount <= 1472 * q
    /\ 1472 * (q - 4) < tileCount
    /\ q <= q'.
Proof.
  intros Hn Hmax.
  exists (quantum_spec tileCount), (quantum_spec tileCount').
  rewrite !ipus_needed_exact by lia.
  split; [reflexivity |]. split; [reflexivity |].
  unfold quantum_spec, roundUpToMultiple.
  pose proof (ceil_div_bounds tileCount 1472 ltac:(lia)).
  pose proof (ceil_div_bounds (ceil_div tileCount 1472) 4 ltac:(lia)).
  pose proof (ceil_div_bounds tileCount' 1472 ltac:(lia)).
  pose proof (ceil_div_bounds (ceil_div tileCount' 1472) 4 ltac:(lia)).
  lia.
Qed.

Lemma quantum_covers_tiles_and_is_least_witness :
  exists q q',
    ipus_needed 5888 = Ret q
    /\ ipus_needed 5889 = Ret q'
    /\ 5888 <= 1472 * q
    /\ 1472 * (q - 4) < 5888
    /\ q <= q'.
Proof.
  apply (quantum_covers_tiles_and_is_least 5888 5889); [lia |].
  vm_compute. discriminate.
Defined.

(** X11.  From [1472 * 2 ^ 1024] tiles on, the first division raises
    [OverflowError]: the quantum is not computed, and a worker that takes
    such a job from the queue dies at once, with the job taken and never
    reported done. *)
Theorem huge_tile_count_kills_the_worker
    (sys : os) (program_path : string) (s : state) (i : nat) (j : job)
    (rest : list job) :
  overflowing_tiles <= numTiles j ->
  threads s !! i = Some AtGet ->
  task_queue s = j :: rest ->
  let e := Exn OverflowError "integer division result too large for a float" in
  ipus_needed (numTiles j) = Raise e
  /\ exists s',
       step sys program_path i s = Some (ActGetRaises j e, s')
       /\ threads s' !! i = Some (Died e)
       /\ task_queue s' = rest
       /\ unfinished_tasks s' = unfinished_tasks s.
Proof.
  intros Hn Hi Hq. cbv zeta.
  assert (Hraise : ipus_needed (numTiles j)
                   = Raise (Exn OverflowError
                              "integer division result too large for a float")).
  { unfold ipus_needed. rewrite (true_div_overflows _ Hn). reflexivity. }
  split; [exact Hraise |].
  pose proof (lookup_lt_Some _ _ _ Hi) as Hlt.
  unfold step. rewrite Hi, Hq, Hraise.
  eexists. split; [reflexivity |].
  cbn [threads task_queue unfinished_tasks]. unfold set_thread.
  split; [apply list_lookup_insert_eq; exact Hlt |]. split; reflexivity.
Qed.

Lemma huge_tile_count_kills_the_worker_witness :
  ipus_needed (numTiles overflowing_job)
  = Raise (Exn OverflowError "integer division result too large for a float").
Proof.
  apply (huge_tile_count_kills_the_worker
           (os_exiting 0 "") "benchmark"
           (State [overflowing_job] 1 (new_semaphore 16) empty_world [AtGet])
           0 overflowing_job []).
  - cbn [numTiles overflowing_job]. lia.
  - reflexivity.
  - reflexivity.
Defined.

(** ** Python's [split], [lstrip] and [startswith] *)

Section PyStrFacts.

Import PyStr.

Lemma split_nonempty (sep : ascii) (s : string) : split sep s <> [].
Proof.
  destruct s as [| c s]; cbn [split]; [discriminate |].
  destruct (Ascii.eqb c sep); [discriminate |].
  destruct (split sep s); discriminate.
Qed.

Lemma split_cons_other (sep c : ascii) (s : string) :
  Ascii.eqb c sep = false ->
  exists field fields,
    split sep s = field :: fields
    /\ split sep (String c s) = String c field :: fields.
Proof.
  intros Hc. cbn [split]. rewrite Hc.
  destruct (split sep s) as [| field fields] eqn:Hs.
  - destruct (split_nonempty _ _ Hs).
  - eauto.
Qed.

(** Splitting at a separator splits both sides. *)
Lemma split_app_sep (sep : ascii) (x y : string) :
  split sep (x +:+ String sep y) = split sep x ++ split sep y.
Proof.
  induction x as [| c x IH].
  - simpl. rewrite Ascii.eqb_refl. reflexivity.
  - change (String c x +:+ String sep y) with (String c (x +:+ String sep y)).
    destruct (Ascii.eqb c sep) eqn:Hc.
    + cbn [split]. rewrite Hc, IH. reflexivity.
    + destruct (split_cons_other sep c x Hc) as (f & fs & Hx & ->).
      destruct (split_cons_other sep c (x +:+ String sep y) Hc)
        as (g & gs & Hxy & ->).
      rewrite IH, Hx in Hxy. injection Hxy as <- <-. reflexivity.
Qed.

Lemma split_no_sep (sep : ascii) (s : string) :
  has_char sep s = false -> split sep s = [s].
Proof.
  induction s as [| c s IH]; [reflexivity |].
  cbn [has_char]. intros [Hc Hs]%orb_false_iff.
  rewrite Ascii.eqb_sym in Hc.
  destruct (split_cons_other sep c s Hc) as (f & fs & Hx & ->).
  rewrite (IH Hs) in Hx. injection Hx as <- <-. reflexivity.
Qed.

(** The first field is the text before the first separator. *)
Lemma index_split_first (sep : ascii) (s : string) :
  index (split sep s) 0 = Done (before sep s).
Proof.
  unfold index. induction s as [| c s IH]; [reflexivity |].
  cbn [split before]. destruct (Ascii.eqb c sep) eqn:Hc; [reflexivity |].
  destruct (split sep s) as [| f fs]; [discriminate IH |].
  cbn in IH |- *. injection IH as ->. reflexivity.
Qed.

Lemma index_last_split (sep : ascii) (x y : string) :
  has_char sep y = false ->
  index_last (split sep (x +:+ String sep y)) = Done y.
Proof.
  intros Hy. unfold index_last.
  rewrite split_app_sep, (split_no_sep _ _ Hy), last_snoc. reflexivity.
Qed.

(** Stripping stops at the first character that is not to be stripped. *)
Lemma lstrip_app_stop (chars x : string) (c : ascii) (y : string) :
  has_char c chars = false ->
  lstrip chars (x +:+ String c y) = lstrip chars x +:+ String c y.
Proof.
  intros Hc. induction x as [| d x IH].
  - simpl. rewrite Hc. reflexivity.
  - change (String d x +:+ String c y) with (String d (x +:+ String c y)).
    cbn [lstrip]. destruct (has_char d chars); [exact IH | reflexivity].
Qed.

Lemma lstrip_prefix (chars p s : string) :
  lstrip chars p = EmptyString -> lstrip chars (p +:+ s) = lstrip chars s.
Proof.
  induction p as [| d p IH]; [reflexivity |].
  change (String d p +:+ s) with (String d (p +:+ s)).
  cbn [lstrip]. destruct (has_char d chars); [exact IH | discriminate].
Qed.

Lemma startswith_app (p s : string) : startswith (p +:+ s) p = true.
Proof.
  induction p as [| c p IH]; [destruct s; reflexivity |].
  change (String c p +:+ s) with (String c (p +:+ s)).
  cbn [startswith]. rewrite Ascii.eqb_refl. exact IH.
Qed.

Lemma append_nonempty (x : string) (c : ascii) (y : string) :
  x +:+ String c y <> EmptyString.
Proof. destruct x; discriminate. Qed.

End PyStrFacts.

(** ** Exceptions in the workers *)

Section Survival.

Variable sys : os.
Variable program_path : string.

Lemma task_done_sound_step seeded acts s i a s' :
  task_done_sound seeded acts s ->
  step sys program_path i s = Some (a, s') ->
  task_done_sound seeded (acts ++ [(i, a)]) s'.
Proof.
  intros [Hacc Hnone] Hstep.
  split; [exact (accounted_step sys program_path _ _ _ _ _ _ Hacc Hstep) |].
  apply Forall_app. split; [exact Hnone |]. apply Forall_singleton.
  destruct Hacc as [_ Hflight].
  step_inv Hstep; cbn [snd]; try discriminate.
  exfalso.
  pose proof (in_flight_lookup _ _ _ Hpc) as Hone. cbn [attempt] in Hone.
  lia.
Qed.

Lemma task_done_sound_exec jobs total w sched acts s :
  exec sys program_path sched (start jobs total w) = Some (acts, s) ->
  task_done_sound (Z.of_nat (length jobs)) acts s.
Proof.
  intros Hexec.
  refine (exec_invariant sys program_path _
            (task_done_sound_step (Z.of_nat (length jobs)))
            sched [] _ _ _ _ Hexec).
  split; [apply accounted_start | constructor].
Qed.

(** Without a profiling directory [run_program] returns, where standard
    output takes every line. *)
Lemma run_job_returns (j : job) (w : world) :
  prints_succeed sys ->
  profiling_dir j = "" ->
  exists b, fst (run_job sys j program_path w) = Ret b.
Proof.
  intros Hstdout. destruct j as [c m o p n]. cbn [profiling_dir]. intros ->.
  run_program_cases; try discriminate; prints_succeed_cases Hstdout; eauto.
Qed.

Lemma alive_step jobs total acts s i a s' :
  prints_succeed sys ->
  Forall well_formed jobs ->
  alive jobs total acts s ->
  step sys program_path i s = Some (a, s') ->
  alive jobs total (acts ++ [(i, a)]) s'.
Proof.
  intros Hstdout Hjobs (Hsound & Hacc & Hdy & Hra) Hstep.
  split; [exact (sound_step sys program_path _ _ _ _ _ _ _ Hsound Hstep) |].
  split; [exact (accounted_step sys program_path _ _ _ _ _ _ Hacc Hstep) |].
  destruct Hsound as (Hq & Hts & _). destruct Hacc as [_ Hflight].
  assert (Hwf : forall j, j ∈ jobs -> well_formed j).
  { intros j. exact (proj1 (Forall_forall _ _) Hjobs j). }
  step_inv Hstep; cbn [threads].
  all: pose proof (Forall_lookup_1 _ _ _ _ Hts Hpc) as [Hjob _].
  all: cbn [job_of_pc] in Hjob.
  all: pose proof (Forall_lookup_1 _ _ _ _ Hdy Hpc) as Hlive;
    cbn [dying] in Hlive; try discriminate Hlive.
  all: try (split;
            [ apply Forall_insert; [exact Hdy | reflexivity]
            | apply Forall_app; split; [exact Hra |];
              apply Forall_singleton; reflexivity ]).
  - (* the quantum of a seeded job is computed *)
    apply Forall_cons in Hq. destruct Hq as [Hin _].
    destruct (ipus_needed_in_range _ (proj2 (Hwf _ Hin))) as (q & Hq' & _).
    congruence.
  - (* [run_program] returns for a seeded job *)
    destruct (run_job_returns j (os_world s) Hstdout
                (proj1 (Hwf _ (Hjob _ eq_refl)))) as [b Hb].
    match goal with
    | H : run_job _ _ _ _ = _ |- _ => rewrite H in Hb
    end.
    discriminate Hb.
  - (* the line of the retry is written *)
    match goal with
    | H : print _ _ _ = _ |- _ =>
        unfold print in H; rewrite Hstdout in H; discriminate H
    end.
  - (* a thread at [task_done] has an unfinished task *)
    pose proof (in_flight_lookup _ _ _ Hpc) as Hone. cbn [attempt] in Hone.
    lia.
Qed.

Lemma alive_exec jobs total w sched acts s :
  prints_succeed sys ->
  Forall well_formed jobs ->
  exec sys program_path sched (start jobs total w) = Some (acts, s) ->
  alive jobs total acts s.
Proof.
  intros Hstdout Hjobs Hexec.
  refine (exec_invariant sys program_path _
            (fun acts s i a s' =>
               alive_step jobs total acts s i a s' Hstdout Hjobs)
            sched [] _ _ _ _ Hexec).
  split; [apply sound_start |]. split; [apply accounted_start |].
  split; [| constructor].
  unfold start. cbn [threads].
  apply Forall_forall. intros p Hp.
  apply elem_of_replicate in Hp. destruct Hp as [-> _]. reflexivity.
Qed.

End Survival.

(** X12.  [task_done] is never called too many times: on every schedule and
    for every behaviour of the jobs, no call of [task_done] raises
    [ValueError], the count of unfinished tasks never goes below zero, and
    a thread about to call [task_done] finds at least one unfinished task. *)
Theorem task_done_never_raises
    (sys : os) (program_path : string) (jobs : list job) (total : Z)
    (w : world) (sched : list nat) (acts : list (nat * action)) (s : state) :
  exec sys program_path sched (start jobs total w) = Some (acts, s) ->
  (forall i, (i, ActTaskDoneRaises) ∉ acts)
  /\ 0 <= unfinished_tasks s
  /\ (forall i j, threads s !! i = Some (AtTaskDone j) ->
                  1 <= unfinished_tasks s).
Proof.
  intros Hexec.
  destruct (task_done_sound_exec _ _ _ _ _ _ _ _ Hexec)
    as [[_ Hflight] Hnone].
  pose proof (in_flight_nonneg (threads s)) as Hnn.
  split; [| split].
  - intros i Hin.
    exact (proj1 (Forall_forall _ _) Hnone (i, ActTaskDoneRaises) Hin eq_refl).
  - lia.
  - intros i j Hp. pose proof (in_flight_lookup _ _ _ Hp) as Hone.
    cbn [attempt] in Hone. lia.
Qed.

Lemma task_done_never_raises_witness :
  exists acts s,
    exec (os_exiting 0 "") "benchmark" [0; 0; 0; 0; 0]%nat
         (start [hook_job] 16 empty_world) = Some (acts, s)
    /\ threads s !! 0%nat = Some (AtTaskDone hook_job)
    /\ 1 <= unfinished_tasks s.
Proof.
  destruct (exec (os_exiting 0 "") "benchmark" [0; 0; 0; 0; 0]%nat
              (start [hook_job] 16 empty_world))
    as [[acts s] |] eqn:Hexec;
    [| vm_compute in Hexec; discriminate].
  exists acts, s. split; [reflexivity |].
  assert (Hp : threads s !! 0%nat = Some (AtTaskDone hook_job)).
  { vm_compute in Hexec. injection Hexec as _ <-. reflexivity. }
  split; [exact Hp |].
  destruct (task_done_never_raises _ _ _ _ _ _ _ _ Hexec) as (_ & _ & Hone).
  exact (Hone 0%nat hook_job Hp).
Defined.

(** X13.  When standard output takes every line, no seeded job has a
    profiling directory and every tile count is at least 1 and below
    [2 ^ 1024], no worker ever ends by an exception: on every schedule and
    for every behaviour of [open] and of the processes, no action raises and
    no thread is dead or about to die. *)
Theorem workers_survive_well_formed_jobs
    (sys : os) (program_path : string) (jobs : list job) (total : Z)
    (w : world) (sched : list nat) (acts : list (nat * action)) (s : state) :
  prints_succeed sys ->
  Forall well_formed jobs ->
  exec sys program_path sched (start jobs total w) = Some (acts, s) ->
  (forall i a, (i, a) ∈ acts -> raising a = false)
  /\ (forall i p, threads s !! i = Some p -> dying p = 0)
  /\ (forall i e, threads s !! i <> Some (Died e)).
Proof.
  intros Hstdout Hjobs Hexec.
  destruct (alive_exec _ _ _ _ _ _ _ _ Hstdout Hjobs Hexec)
    as (_ & _ & Hdy & Hra).
  split; [| split].
  - intros i a Hin. exact (proj1 (Forall_forall _ _) Hra (i, a) Hin).
  - intros i p Hp. exact (Forall_lookup_1 _ _ _ _ Hdy Hp).
  - intros i e Hp. pose proof (Forall_lookup_1 _ _ _ _ Hdy Hp) as Hd.
    discriminate Hd.
Qed.

Lemma workers_survive_well_formed_jobs_witness :
  exists acts s,
    exec os_unwritable "benchmark" [0; 0; 0; 0; 0; 0]%nat
         (start [hook_job] 16 empty_world) = Some (acts, s)
    /\ task_queue s = [hook_job]
    /\ forall i p, threads s !! i = Some p -> dying p = 0.
Proof.
  destruct (exec os_unwritable "benchmark" [0; 0; 0; 0; 0; 0]%nat
              (start [hook_job] 16 empty_world))
    as [[acts s] |] eqn:Hexec;
    [| vm_compute in Hexec; discriminate].
  exists acts, s. split; [reflexivity |]. split.
  - vm_compute in Hexec. injection Hexec as _ <-. reflexivity.
  - refine (proj1 (proj2 (workers_survive_well_formed_jobs
                            os_unwritable _ _ _ _ _ _ _
                            (fun _ _ => eq_refl) _ Hexec))).
    apply Forall_singleton. split; [reflexivity |].
    cbn [numTiles hook_job]. unfold float_range. split; [lia |].
    apply (Z.lt_le_trans _ (2 ^ 13)); [lia |].
    apply Z.pow_le_mono_r; lia.
Defined.

(** ** [main]: the names of the jobs *)

Section Naming.

Import PyStr.

Lemma has_char_lstrip (c : ascii) (chars s : string) :
  has_char c s = false -> has_char c (lstrip chars s) = false.
Proof.
  induction s as [| d s IH]; [reflexivity |].
  intros Hs. cbn [lstrip]. destruct (has_char d chars); [| exact Hs].
  cbn [has_char] in Hs. apply orb_false_iff in Hs. exact (IH (proj2 Hs)).
Qed.

Lemma lstrip_flag_m (s : string) : lstrip "-m" ("-m" +:+ s) = lstrip "-m" s.
Proof. reflexivity. Qed.

Lemma lstrip_flag_p (s : string) : lstrip "-p" ("-p" +:+ s) = lstrip "-p" s.
Proof. reflexivity. Qed.

Lemma startswith_flag_p (s : string) : startswith ("-p" +:+ s) "-m" = false.
Proof. reflexivity. Qed.

(** A file in a directory: the name is the file name up to its first dot. *)
Lemma matrix_name_file (prev : option string) (dir file : string) :
  has_char "/" file = false ->
  matrix_name_after prev ("-m" +:+ dir +:+ "/" +:+ file)
  = Done (Some (before "." file)).
Proof.
  intros Hfile. unfold matrix_name_after.
  rewrite startswith_app, lstrip_flag_m.
  change ("/" +:+ file) with (String "/" file).
  rewrite (lstrip_app_stop "-m" dir "/" file eq_refl).
  rewrite (index_last_split "/" _ _ Hfile). cbn [and_then].
  rewrite index_split_first. reflexivity.
Qed.

(** A file named without a directory: the leading characters [-] and [m]
    of its name are stripped with the flag. *)
Lemma matrix_name_local (prev : option string) (file : string) :
  has_char "/" file = false ->
  matrix_name_after prev ("-m" +:+ file)
  = Done (Some (before "." (lstrip "-m" file))).
Proof.
  intros Hfile. unfold matrix_name_after.
  rewrite startswith_app, lstrip_flag_m.
  rewrite (split_no_sep "/" _ (has_char_lstrip _ "-m" _ Hfile)).
  cbn [index_last last and_then].
  rewrite index_split_first. reflexivity.
Qed.

Lemma matrix_name_poisson (prev : option string) (nx ny rest : string) :
  has_char "," nx = false -> has_char "," ny = false ->
  matrix_name_after prev ("-p" +:+ nx +:+ "," +:+ ny +:+ "," +:+ rest)
  = Done (Some ("poisson_" +:+ lstrip "-p" nx +:+ "x" +:+ ny +:+ "x"
                  +:+ before "," rest)).
Proof.
  intros Hx Hy. unfold matrix_name_after.
  rewrite startswith_flag_p, startswith_app, lstrip_flag_p.
  change ("," +:+ ny +:+ "," +:+ rest) with (String "," (ny +:+ String "," rest)).
  rewrite (lstrip_app_stop "-p" nx "," _ eq_refl).
  rewrite !split_app_sep.
  rewrite (split_no_sep "," _ (has_char_lstrip _ "-p" _ Hx)).
  rewrite (split_no_sep "," _ Hy).
  pose proof (index_split_first "," rest) as Hrest. unfold index in Hrest.
  unfold index. cbn [app lookup list_lookup and_then].
  destruct (split "," rest) as [| z zs]; [discriminate Hrest |].
  cbn [lookup list_lookup] in Hrest |- *. injection Hrest as ->.
  reflexivity.
Qed.

Lemma matrix_name_poisson_one (prev : option string) (nx : string) :
  has_char "," nx = false ->
  matrix_name_after prev ("-p" +:+ nx) = Fails IndexError.
Proof.
  intros Hx. unfold matrix_name_after.
  rewrite startswith_flag_p, startswith_app, lstrip_flag_p.
  rewrite (split_no_sep "," _ (has_char_lstrip _ "-p" _ Hx)).
  reflexivity.
Qed.

Lemma matrix_name_poisson_two (prev : option string) (nx ny : string) :
  has_char "," nx = false -> has_char "," ny = false ->
  matrix_name_after prev ("-p" +:+ nx +:+ "," +:+ ny) = Fails IndexError.
Proof.
  intros Hx Hy. unfold matrix_name_after.
  rewrite startswith_flag_p, startswith_app, lstrip_flag_p.
  change ("," +:+ ny) with (String "," ny).
  rewrite (lstrip_app_stop "-p" nx "," _ eq_refl).
  rewrite split_app_sep.
  rewrite (split_no_sep "," _ (has_char_lstrip _ "-p" _ Hx)).
  rewrite (split_no_sep "," _ Hy).
  reflexivity.
Qed.

Lemma matrix_name_named (prev : option string) (matrix : string) :
  named matrix -> exists name, matrix_name_after prev matrix = Done (Some name).
Proof.
  intros Hnamed. unfold matrix_name_after.
  destruct (startswith matrix "-m") eqn:Hm.
  - unfold index_last.
    destruct (last (split "/" (lstrip "-m" matrix))) as [file |] eqn:Hlast.
    + cbn [and_then]. rewrite index_split_first. cbn [and_then]. eauto.
    + apply last_None in Hlast. destruct (split_nonempty _ _ Hlast).
  - destruct Hnamed as [Hm' | [Hp Hlen]]; [congruence |].
    rewrite Hp. unfold index.
    destruct (split "," (lstrip "-p" matrix)) as [| a [| b [| c l]]];
      cbn [length] in Hlen; try lia.
    cbn. eauto.
Qed.

Variable log_dir : string.
Variable require_profiling : list string.

(** The body of the loop, by the name the matrix gets. *)
Lemma seed_one_eq (numTiles : Z) (config matrix : string)
    (st : option string * list job) :
  seed_one log_dir require_profiling numTiles config matrix st
  = match matrix_name_after (fst st) matrix with
    | Done (Some name) =>
        Done (Some name,
              snd st ++
              [Job config matrix
                   (output_file_for log_dir (before "." config) name numTiles)
                   (if bool_decide (config ∈ require_profiling)
                    then profiling_dir_for log_dir (before "." config) name
                                           numTiles
                    else "")
                   numTiles])
    | Done None => Fails (UnboundLocalError "matrix_name")
    | Fails e => Fails e
    end.
Proof.
  unfold seed_one. rewrite index_split_first. cbn [and_then].
  destruct (matrix_name_after (fst st) matrix) as [[name |] | e];
    cbn [and_then read_matrix_name];
    destruct (bool_decide (config ∈ require_profiling)); reflexivity.
Qed.

Lemma profiling_dir_for_nonempty (config_name matrix_name : string) (n : Z) :
  profiling_dir_for log_dir config_name matrix_name n <> "".
Proof.
  unfold profiling_dir_for.
  change ("/profiling/" +:+ ?x) with (String "/" ("profiling/" +:+ x)).
  apply append_nonempty.
Qed.

Lemma for_each_grows {A S K : Type} (body : A -> S -> outcome S)
    (proj : S -> list K) (key : A -> list K) (l : list A) :
  (forall x st, x ∈ l ->
     exists st', body x st = Done st' /\ proj st' = proj st ++ key x) ->
  forall st,
    exists st', for_each body l st = Done st'
                /\ proj st' = proj st ++ flat_map key l.
Proof.
  induction l as [| x l IH]; intros Hbody st.
  - exists st. cbn. rewrite app_nil_r. split; reflexivity.
  - destruct (Hbody x st (list_elem_of_here _ _)) as (st1 & Hx & Hk1).
    destruct (IH (fun y st Hy => Hbody y st (list_elem_of_further _ _ _ Hy)) st1)
      as (st2 & Hl & Hk2).
    exists st2. cbn [for_each flat_map]. rewrite Hx. split; [exact Hl |].
    rewrite Hk2, Hk1, app_assoc. reflexivity.
Qed.

Lemma for_each_preserves {A S : Type} (body : A -> S -> outcome S)
    (I : S -> Prop) (l : list A) :
  (forall x st st', x ∈ l -> I st -> body x st = Done st' -> I st') ->
  forall st st', I st -> for_each body l st = Done st' -> I st'.
Proof.
  induction l as [| x l IH]; intros Hbody st st' HI Hrun; cbn in Hrun.
  - injection Hrun as <-. exact HI.
  - destruct (body x st) as [st1 | e] eqn:Hx; [| discriminate].
    apply (IH (fun y s s' Hy => Hbody y s s' (list_elem_of_further _ _ _ Hy))
              st1 st'); [| exact Hrun].
    exact (Hbody x st st1 (list_elem_of_here _ _) HI Hx).
Qed.

(** A loop whose body fails at one of the items, whatever the state, fails. *)
Lemma for_each_fails {A S : Type} (body : A -> S -> outcome S) (l : list A)
    (x : A) :
  x ∈ l -> (forall st, exists e, body x st = Fails e) ->
  forall st, exists e, for_each body l st = Fails e.
Proof.
  intros Hin Hx. induction l as [| y l IH]; intros st.
  - apply elem_of_nil in Hin. destruct Hin.
  - cbn [for_each]. destruct (body y st) as [st1 | e] eqn:Hy; [| eauto].
    apply elem_of_cons in Hin. destruct Hin as [<- | Hin].
    + destruct (Hx st) as [e He]. congruence.
    + exact (IH Hin st1).
Qed.

Lemma seed_one_named (numTiles : Z) (config matrix : string)
    (st : option string * list job) :
  named matrix ->
  exists st',
    seed_one log_dir require_profiling numTiles config matrix st = Done st'
    /\ map job_key (snd st')
       = map job_key (snd st) ++ [(numTiles, config, matrix)].
Proof.
  intros Hnamed. rewrite seed_one_eq.
  destruct (matrix_name_named (fst st) matrix Hnamed) as [name ->].
  eexists. split; [reflexivity |].
  cbn [snd]. rewrite map_app. reflexivity.
Qed.

Lemma seed_queue_named (tiles : list Z) (config_files matrices : list string) :
  Forall named matrices ->
  exists st,
    seed_queue log_dir require_profiling tiles config_files matrices = Done st
    /\ map job_key (snd st) = expected_keys tiles config_files matrices.
Proof.
  intros Hnamed. unfold seed_queue, expected_keys.
  apply (for_each_grows _ (fun st => map job_key (snd st))
           (fun numTiles =>
              flat_map (fun config =>
                          map (fun matrix => (numTiles, config, matrix))
                              matrices)
                       config_files)).
  intros numTiles st _.
  apply (for_each_grows _ (fun st => map job_key (snd st))
           (fun config => map (fun matrix => (numTiles, config, matrix))
                              matrices)).
  clear st. intros config st _.
  destruct (for_each_grows
              (seed_one log_dir require_profiling numTiles config)
              (fun st => map job_key (snd st))
              (fun matrix => [(numTiles, config, matrix)]) matrices)
    with (st := st) as (st' & Hrun & Hkeys).
  - intros matrix st0 Hin. apply seed_one_named.
    exact (proj1 (Forall_forall _ _) Hnamed matrix Hin).
  - exists st'. split; [exact Hrun |]. rewrite Hkeys. f_equal.
Qed.

Lemma length_expected_keys (tiles : list Z) (config_files matrices : list string) :
  length (expected_keys tiles config_files matrices)
  = (length tiles * length config_files * length matrices)%nat.
Proof.
  unfold expected_keys.
  induction tiles as [| n tiles IHt]; [reflexivity |].
  cbn [flat_map]. rewrite length_app, IHt. cbn [length].
  assert (Hrow : length (flat_map (fun config : string =>
                                     map (fun matrix : string =>
                                            (n, config, matrix)) matrices)
                                  config_files)
                 = (length config_files * length matrices)%nat).
  { clear. induction config_files as [| c cs IHc]; [reflexivity |].
    cbn [flat_map]. rewrite length_app, IHc, length_map. reflexivity. }
  rewrite Hrow. lia.
Qed.

Lemma seed_one_from (tiles : list Z) (config_files matrices : list string)
    (n : Z) (c m : string) (st st' : option string * list job) :
  n ∈ tiles -> c ∈ config_files -> m ∈ matrices ->
  Forall (seeded_from require_profiling tiles config_files matrices) (snd st) ->
  seed_one log_dir require_profiling n c m st = Done st' ->
  Forall (seeded_from require_profiling tiles config_files matrices) (snd st').
Proof.
  intros Hn Hc Hm Hst. rewrite seed_one_eq.
  destruct (matrix_name_after (fst st) m) as [[name |] | e];
    try discriminate.
  intros [= <-]. cbn [snd]. apply Forall_app. split; [exact Hst |].
  apply Forall_singleton. unfold seeded_from.
  cbn [numTiles config matrix profiling_dir].
  repeat split; try assumption.
  - destruct (bool_decide_reflect (c ∈ require_profiling)) as [Hin | Hnot];
      [| intros _; exact Hnot].
    intros Hempty. destruct (profiling_dir_for_nonempty _ _ _ Hempty).
  - intros Hnot. rewrite bool_decide_eq_false_2 by exact Hnot. reflexivity.
Qed.

Lemma seed_queue_from (tiles : list Z) (config_files matrices : list string)
    (st : option string * list job) :
  seed_queue log_dir require_profiling tiles config_files matrices = Done st ->
  Forall (seeded_from require_profiling tiles config_files matrices) (snd st).
Proof.
  unfold seed_queue.
  pose (I := fun st : option string * list job =>
               Forall (seeded_from require_profiling tiles config_files
                                   matrices) (snd st)).
  apply (for_each_preserves _ I); [| constructor].
  intros n st1 st1' Hn.
  apply (for_each_preserves _ I). intros c st2 st2' Hc.
  apply (for_each_preserves _ I). intros m st3 st3' Hm.
  exact (seed_one_from _ _ _ _ _ _ _ _ Hn Hc Hm).
Qed.

End Naming.

(** X14.  When every matrix specification is a file ([-m...]) or a Poisson
    problem with at least three sizes, the three nested loops of [main]
    succeed and put one job for every combination of tile count,
    configuration and matrix, in the order of the loops: tile counts outermost,
    matrices innermost. *)
Theorem seeding_is_the_cross_product
    (log_dir : string) (require_profiling : list string) (tiles : list Z)
    (config_files matrices : list string) :
  Forall named matrices ->
  exists name jobs,
    seed_queue log_dir require_profiling tiles config_files matrices
    = Done (name, jobs)
    /\ map job_key jobs = expected_keys tiles config_files matrices
    /\ length jobs
       = (length tiles * length config_files * length matrices)%nat.
Proof.
  intros Hnamed.
  destruct (seed_queue_named log_dir require_profiling tiles config_files
              matrices Hnamed) as ([name jobs] & Hrun & Hkeys).
  exists name, jobs. split; [exact Hrun |]. split; [exact Hkeys |].
  cbn [snd] in Hkeys.
  rewrite <- (length_map job_key jobs), Hkeys. apply length_expected_keys.
Qed.

Lemma seeding_is_the_cross_product_witness :
  exists name jobs,
    seed_queue main_log_dir main_require_profiling main_tiles
               main_config_files main_matrices = Done (name, jobs)
    /\ map job_key jobs
       = expected_keys main_tiles main_config_files main_matrices
    /\ length jobs = 4%nat.
Proof.
  apply (seeding_is_the_cross_product main_log_dir main_require_profiling
           main_tiles main_config_files main_matrices).
  unfold main_matrices.
  repeat (apply Forall_cons; split; [left; reflexivity |]).
  apply Forall_nil_2.
Defined.

(** X15.  Every job [main] puts on the queue takes its tile count, its
    configuration and its matrix from the three lists, and has a profiling
    directory exactly when its configuration is one of those that require
    profiling.  A job of any other configuration makes [run_program] make no
    directory, whatever [open] and the process do, and return without an
    exception where standard output takes every line. *)
Theorem seeded_jobs_profile_only_listed_configs
    (log_dir : string) (require_profiling : list string) (tiles : list Z)
    (config_files matrices : list string) (name : option string)
    (jobs : list job) :
  seed_queue log_dir require_profiling tiles config_files matrices
  = Done (name, jobs) ->
  forall j, j ∈ jobs ->
    numTiles j ∈ tiles /\ config j ∈ config_files /\ matrix j ∈ matrices
    /\ (profiling_dir j = "" <-> config j ∉ require_profiling)
    /\ (config j ∉ require_profiling ->
        forall (sys : os) (program_path : string) (w : world),
          (prints_succeed sys ->
           exists b, fst (run_job sys j program_path w) = Ret b)
          /\ (forall p r,
                EvMakedirs p r ∉ emitted (run_job sys j program_path) w)
          /\ dirs (snd (run_job sys j program_path w)) = dirs w).
Proof.
  intros Hrun j Hj.
  pose proof (proj1 (Forall_forall _ _)
                (seed_queue_from _ _ _ _ _ _ Hrun) j Hj)
    as (Hn & Hc & Hm & Hdir).
  repeat (split; [assumption |]).
  intros Hnot sys program_path w.
  pose proof (proj2 Hdir Hnot) as Hempty.
  split; [intros Hstdout;
          exact (run_job_returns sys program_path j w Hstdout Hempty) |].
  apply (run_program_without_profiling_dir sys (config j) (matrix j)
           (output_file j) (profiling_dir j) program_path (numTiles j) w).
  rewrite Hempty. reflexivity.
Qed.

Lemma seeded_jobs_profile_only_listed_configs_witness :
  let j := Job "spmv.jsonc" "-mHook.mtx" "logs//spmv_Hook_5888tiles.txt"
               "logs//profiling/spmv_Hook_5888tiles" 5888 in
  seed_queue "logs/" main_require_profiling [5888] ["spmv.jsonc"]
             ["-mHook.mtx"] = Done (Some "Hook", [j])
  /\ (profiling_dir j = "" <-> config j ∉ main_require_profiling).
Proof.
  cbv zeta.
  assert (Hrun : seed_queue "logs/" main_require_profiling [5888]
                            ["spmv.jsonc"] ["-mHook.mtx"]
                 = Done (Some "Hook",
                         [Job "spmv.jsonc" "-mHook.mtx"
                              "logs//spmv_Hook_5888tiles.txt"
                              "logs//profiling/spmv_Hook_5888tiles" 5888]))
    by (vm_compute; reflexivity).
  split; [exact Hrun |].
  refine (proj1 (proj2 (proj2 (proj2
            (seeded_jobs_profile_only_listed_configs _ _ _ _ _ _ _ Hrun _ _))))).
  apply list_elem_of_here.
Defined.

(** X16.  [main] as a whole, when no configuration requires profiling,
    every matrix specification can be named and every tile count is at least
    1 and below [2 ^ 1024]: the seeding succeeds, as many threads as there
    are units are started, and where standard output takes every line, on
    every schedule and for every behaviour of [open] and of the processes,
    no worker ends by an exception. *)
Theorem main_workers_never_die
    (log_dir : string) (require_profiling : list string) (tiles : list Z)
    (config_files matrices : list string) (total : Z) (w : world) :
  Forall named matrices ->
  Forall (fun c => c ∉ require_profiling) config_files ->
  Forall (fun n => 1 <= n < float_range) tiles ->
  exists s0,
    main_start log_dir require_profiling tiles config_files matrices total w
    = Done s0
    /\ length (threads s0) = Z.to_nat total
    /\ forall (sys : os) (program_path : string) (sched : list nat)
              (acts : list (nat * action)) (s : state),
         prints_succeed sys ->
         exec sys program_path sched s0 = Some (acts, s) ->
         (forall i a, (i, a) ∈ acts -> raising a = false)
         /\ (forall i p, threads s !! i = Some p -> dying p = 0).
Proof.
  intros Hnamed Hconfigs Htiles. unfold main_start.
  destruct (seed_queue_named log_dir require_profiling tiles config_files
              matrices Hnamed) as ([name jobs] & Hrun & _).
  rewrite Hrun. cbn [and_then snd].
  exists (start jobs total w). split; [reflexivity |].
  split; [apply length_replicate |].
  intros sys program_path sched acts s Hstdout Hexec.
  assert (Hjobs : Forall well_formed jobs).
  { apply Forall_forall. intros j Hj.
    pose proof (proj1 (Forall_forall _ _)
                  (seed_queue_from _ _ _ _ _ _ Hrun) j Hj)
      as (Hn & Hc & _ & Hdir).
    split.
    - apply Hdir. exact (proj1 (Forall_forall _ _) Hconfigs _ Hc).
    - exact (proj1 (Forall_forall _ _) Htiles _ Hn). }
  destruct (alive_exec _ _ _ _ _ _ _ _ Hstdout Hjobs Hexec)
    as (_ & _ & Hdy & Hra).
  split.
  - intros i a Hin. exact (proj1 (Forall_forall _ _) Hra (i, a) Hin).
  - intros i p Hp. exact (Forall_lookup_1 _ _ _ _ Hdy Hp).
Qed.

Lemma main_workers_never_die_witness :
  exists s0,
    main_start main_log_dir main_require_profiling main_tiles
               main_config_files main_matrices main_total_ipus empty_world
    = Done s0
    /\ length (threads s0) = 16%nat.
Proof.
  destruct (main_workers_never_die main_log_dir main_require_profiling
              main_tiles main_config_files main_matrices main_total_ipus
              empty_world) as (s0 & Hstart & Hlen & _).
  - unfold main_matrices.
    repeat (apply Forall_cons; split; [left; reflexivity |]).
    apply Forall_nil_2.
  - apply Forall_singleton. unfold main_require_profiling.
    intros Hin. apply elem_of_cons in Hin. destruct Hin as [Heq | Hin];
      [discriminate Heq |].
    apply elem_of_cons in Hin. destruct Hin as [Heq | Hin];
      [discriminate Heq |].
    apply elem_of_nil in Hin. exact Hin.
  - apply Forall_singleton. unfold float_range. split; [lia |].
    apply (Z.lt_le_trans _ (2 ^ 13)); [lia |].
    apply Z.pow_le_mono_r; lia.
  - exists s0. split; [exact Hstart | exact Hlen].
Defined.

(** X17.  For a matrix file in a directory, the name of the job is the file
    name up to its first dot; the directory does not enter the name.  Two
    files with that same stem, in whatever directories, therefore get the
    same output file and the same profiling directory. *)
Theorem same_stem_means_same_output_file
    (log_dir : string) (require_profiling : list string) (n : Z) (c : string)
    (dir1 dir2 file1 file2 : string) (st1 st2 : option string * list job) :
  PyStr.has_char "/" file1 = false ->
  PyStr.has_char "/" file2 = false ->
  PyStr.before "." file1 = PyStr.before "." file2 ->
  exists j1 j2,
    seed_one log_dir require_profiling n c ("-m" +:+ dir1 +:+ "/" +:+ file1) st1
    = Done (Some (PyStr.before "." file1), snd st1 ++ [j1])
    /\ seed_one log_dir require_profiling n c
                ("-m" +:+ dir2 +:+ "/" +:+ file2) st2
       = Done (Some (PyStr.before "." file1), snd st2 ++ [j2])
    /\ output_file j1
       = output_file_for log_dir (PyStr.before "." c)
                         (PyStr.before "." file1) n
    /\ output_file j2 = output_file j1
    /\ profiling_dir j2 = profiling_dir j1.
Proof.
  intros H1 H2 Hstem.
  rewrite !seed_one_eq, !matrix_name_file by assumption.
  rewrite <- Hstem.
  do 2 eexists. split; [reflexivity |]. split; [reflexivity |].
  cbn [output_file profiling_dir]. repeat split.
Qed.

Lemma same_stem_means_same_output_file_witness :
  exists j1 j2,
    seed_one "logs" [] 5888 "ir.jsonc" "-m../a/Hook.mtx" (None, [])
    = Done (Some "Hook", [j1])
    /\ seed_one "logs" [] 5888 "ir.jsonc" "-m../b/Hook.v2.mtx" (None, [j1])
       = Done (Some "Hook", [j1; j2])
    /\ output_file j1 = "logs/ir_Hook_5888tiles.txt"
    /\ output_file j2 = output_file j1.
Proof.
  destruct (same_stem_means_same_output_file
              "logs" [] 5888 "ir.jsonc" "../a" "../b" "Hook.mtx" "Hook.v2.mtx"
              (None, [])
              (None, [Job "ir.jsonc" "-m../a/Hook.mtx"
                          "logs/ir_Hook_5888tiles.txt" "" 5888])
              eq_refl eq_refl eq_refl)
    as (j1 & j2 & Hone & Htwo & Hout & Hsame & _).
  exists j1, j2.
  assert (Hj1 : j1 = Job "ir.jsonc" "-m../a/Hook.mtx"
                         "logs/ir_Hook_5888tiles.txt" "" 5888).
  { vm_compute in Hone. injection Hone as <-. reflexivity. }
  split; [exact Hone |]. split.
  - rewrite Hj1. exact Htwo.
  - split; [rewrite Hj1; reflexivity | exact Hsame].
Defined.

(** X18.  [lstrip("-m")] strips characters, not the flag: every leading
    [-] and [m] of a file named without a directory is dropped with the
    flag, so the job of [-mmesh.mtx] is named [esh], and file names that
    differ only in such leading characters get the same name. *)
Theorem flag_strip_eats_leading_characters
    (prev : option string) (p file : string) :
  PyStr.lstrip "-m" p = "" ->
  PyStr.has_char "/" file = false ->
  matrix_name_after prev ("-m" +:+ p +:+ file)
  = Done (Some (PyStr.before "." (PyStr.lstrip "-m" file)))
  /\ matrix_name_after prev ("-m" +:+ p +:+ file)
     = matrix_name_after prev ("-m" +:+ file).
Proof.
  intros Hp Hfile.
  assert (Hsame : matrix_name_after prev ("-m" +:+ p +:+ file)
                  = matrix_name_after prev ("-m" +:+ file)).
  { unfold matrix_name_after.
    rewrite !startswith_app, !lstrip_flag_m, (lstrip_prefix _ _ _ Hp).
    reflexivity. }
  split; [| exact Hsame].
  rewrite Hsame. exact (matrix_name_local prev file Hfile).
Qed.

Lemma flag_strip_eats_leading_characters_witness :
  matrix_name_after None "-mmesh.mtx" = Done (Some "esh")
  /\ matrix_name_after None "-mmesh.mtx" = matrix_name_after None "-mesh.mtx".
Proof.
  exact (flag_strip_eats_leading_characters None "m" "esh.mtx"
           eq_refl eq_refl).
Defined.

(** X19.  A matrix specification that starts with neither [-m] nor [-p]
    leaves [matrix_name] as it was.  As the first matrix of the first
    iteration it makes [main] raise [UnboundLocalError]; after another
    matrix it silently reuses that matrix's name, so its job gets the same
    output file and profiling directory as the job before it. *)
Theorem unflagged_matrix_reuses_previous_name
    (log_dir : string) (require_profiling : list string) (n : Z)
    (c m : string) :
  PyStr.startswith m "-m" = false ->
  PyStr.startswith m "-p" = false ->
  (forall tiles config_files matrices,
      seed_queue log_dir require_profiling (n :: tiles) (c :: config_files)
                 (m :: matrices)
      = Fails (UnboundLocalError "matrix_name"))
  /\ (forall m1 st name jobs,
        seed_one log_dir require_profiling n c m1 st = Done (name, jobs) ->
        exists j1 j2,
          jobs = snd st ++ [j1]
          /\ seed_one log_dir require_profiling n c m (name, jobs)
             = Done (name, jobs ++ [j2])
          /\ matrix j2 = m
          /\ output_file j2 = output_file j1
          /\ profiling_dir j2 = profiling_dir j1).
Proof.
  intros Hm Hp.
  assert (Hkeep : forall prev, matrix_name_after prev m = Done prev).
  { intros prev. unfold matrix_name_after. rewrite Hm, Hp. reflexivity. }
  split.
  - intros tiles config_files matrices. unfold seed_queue.
    cbn [for_each]. rewrite seed_one_eq, Hkeep. reflexivity.
  - intros m1 st name jobs. rewrite seed_one_eq.
    destruct (matrix_name_after (fst st) m1) as [[nm |] | e];
      try discriminate.
    intros [= <- <-].
    do 2 eexists. split; [reflexivity |].
    rewrite seed_one_eq, Hkeep. cbn [fst snd].
    split; [reflexivity |].
    cbn [matrix output_file profiling_dir]. repeat split.
Qed.

Lemma unflagged_matrix_reuses_previous_name_witness :
  seed_queue "logs" [] [5888] ["ir.jsonc"] ["../Geo.mtx"; "-m../Hook.mtx"]
  = Fails (UnboundLocalError "matrix_name")
  /\ exists name jobs,
       seed_queue "logs" [] [5888] ["ir.jsonc"] ["-m../Hook.mtx"; "../Geo.mtx"]
       = Done (name, jobs)
       /\ map output_file jobs
          = ["logs/ir_Hook_5888tiles.txt"; "logs/ir_Hook_5888tiles.txt"].
Proof.
  destruct (unflagged_matrix_reuses_previous_name
              "logs" [] 5888 "ir.jsonc" "../Geo.mtx" eq_refl eq_refl)
    as [Hfirst _].
  split; [exact (Hfirst [] [] ["-m../Hook.mtx"]) |].
  do 2 eexists. split; vm_compute; reflexivity.
Defined.

(** X20.  A Poisson specification [-pA,B,C] is named [poisson_AxBxC]:
    whatever follows a third comma is ignored, and leading [-] and [p] of
    the first size are stripped with the flag. *)
Theorem poisson_name_uses_first_three_sizes
    (prev : option string) (nx ny rest : string) :
  PyStr.has_char "," nx = false ->
  PyStr.has_char "," ny = false ->
  matrix_name_after prev ("-p" +:+ nx +:+ "," +:+ ny +:+ "," +:+ rest)
  = Done (Some ("poisson_" +:+ PyStr.lstrip "-p" nx +:+ "x" +:+ ny +:+ "x"
                  +:+ PyStr.before "," rest)).
Proof. exact (matrix_name_poisson prev nx ny rest). Qed.

Lemma poisson_name_uses_first_three_sizes_witness :
  matrix_name_after None "-p150,200,250,300"
  = Done (Some "poisson_150x200x250").
Proof.
  exact (poisson_name_uses_first_three_sizes None "150" "200" "250,300"
           eq_refl eq_refl).
Defined.

(** X21.  A Poisson specification with fewer than three sizes raises
    [IndexError] when it is named; wherever it stands in the list of
    matrices, [main] then ends by an exception while it seeds the queue,
    before the semaphore is made and any thread is started. *)
Theorem short_poisson_stops_main
    (log_dir : string) (require_profiling : list string) (tiles : list Z)
    (config_files matrices : list string) (total : Z) (w : world)
    (m nx ny : string) :
  PyStr.has_char "," nx = false ->
  PyStr.has_char "," ny = false ->
  m = "-p" +:+ nx \/ m = "-p" +:+ nx +:+ "," +:+ ny ->
  (forall prev, matrix_name_after prev m = Fails IndexError)
  /\ (tiles <> [] -> config_files <> [] -> m ∈ matrices ->
      exists e,
        main_start log_dir require_profiling tiles config_files matrices
                   total w
        = Fails e).
Proof.
  intros Hx Hy Hm.
  assert (Hfail : forall prev, matrix_name_after prev m = Fails IndexError).
  { intros prev. destruct Hm as [-> | ->].
    - exact (matrix_name_poisson_one prev nx Hx).
    - exact (matrix_name_poisson_two prev nx ny Hx Hy). }
  split; [exact Hfail |].
  intros Htiles Hconfigs Hin. unfold main_start, seed_queue.
  destruct tiles as [| n tiles]; [congruence |].
  destruct config_files as [| c config_files]; [congruence |].
  destruct (for_each_fails
              (fun numTiles =>
                 for_each (fun config =>
                   for_each (seed_one log_dir require_profiling numTiles config)
                            matrices)
                   (c :: config_files))
              (n :: tiles) n (list_elem_of_here _ _)) with (st := (@None string, @nil job))
    as [e He].
  - intros st.
    apply (for_each_fails _ (c :: config_files) c (list_elem_of_here _ _)).
    intros st'.
    apply (for_each_fails _ matrices m Hin).
    intros st''. rewrite seed_one_eq, Hfail. eauto.
  - exists e. rewrite He. reflexivity.
Qed.

Lemma short_poisson_stops_main_witness :
  matrix_name_after None "-p200,200" = Fails IndexError
  /\ exists e,
       main_start main_log_dir main_require_profiling main_tiles
                  main_config_files ["-p150,150,150"; "-p200,200"]
                  main_total_ipus empty_world
       = Fails e.
Proof.
  destruct (short_poisson_stops_main
              main_log_dir main_require_profiling main_tiles main_config_files
              ["-p150,150,150"; "-p200,200"] main_total_ipus empty_world
              "-p200,200" "200" "200" eq_refl eq_refl
              (or_intror eq_refl))
    as [Hname Hmain].
  split; [exact (Hname None) |].
  apply Hmain; [discriminate | discriminate |].
  apply list_elem_of_further, list_elem_of_here.
Defined.

(** ** Workers that cannot move *)

Section Stuck.

Variable sys : os.
Variable program_path : string.

(** Where a thread that has no step stands. *)
Lemma stuck_thread i p s :
  step sys program_path i s = None -> threads s !! i = Some p ->
  p = Finished
  \/ (exists e, p = Died e)
  \/ (p = AtGet /\ task_queue s = [])
  \/ (exists j n, p = AtEnter j n /\ enter n (ipu_semaphore s) = None).
Proof.
  intros Hstep Hp. unfold step in Hstep. rewrite Hp in Hstep.
  destruct p as [| | j n | j n | j n | j n | j n | j n e | j | | e].
  - destruct (task_queue s); discriminate Hstep.
  - destruct (task_queue s) as [| j rest]; [auto |].
    destruct (ipus_needed (numTiles j)); discriminate Hstep.
  - destruct (enter n (ipu_semaphore s)) eqn:Henter; [discriminate Hstep |].
    right. right. right. eauto.
  - destruct (run_job sys j program_path (os_world s)). discriminate Hstep.
  - discriminate Hstep.
  - destruct (print sys (rescheduled_line j) (os_world s)) as [[] ?];
      discriminate Hstep.
  - discriminate Hstep.
  - discriminate Hstep.
  - destruct (unfinished_tasks s - 1 <? 0); discriminate Hstep.
  - auto.
  - right. left. eauto.
Qed.

Lemma count_pcs_zero (f : pc -> Z) (ts : list pc) :
  (forall i p, ts !! i = Some p -> f p = 0) -> count_pcs f ts = 0.
Proof.
  induction ts as [| p ts IH]; intros Hall; [reflexivity |].
  rewrite count_pcs_cons, IH.
  - rewrite (Hall 0%nat p eq_refl). reflexivity.
  - intros i q Hq. exact (Hall (S i) q Hq).
Qed.

Lemma in_flight_none (ts : list pc) :
  (forall i p, ts !! i = Some p -> attempt p = 0) -> in_flight ts = 0.
Proof.
  induction ts as [| p ts IH]; intros Hall; [reflexivity |].
  rewrite in_flight_cons, IH.
  - rewrite (Hall 0%nat p eq_refl). reflexivity.
  - intros i q Hq. exact (Hall (S i) q Hq).
Qed.

(** The units held are at least four for every thread inside the block. *)
Lemma units_inside_ge (jobs : list job) (ts : list pc) :
  Forall (fun j => 1 <= numTiles j < float_range) jobs ->
  Forall (pc_sound jobs) ts ->
  4 * count_pcs inside ts <= units_inside ts.
Proof.
  intros Hjobs Hts. unfold units_inside.
  induction Hts as [| p ts [Hjob Hquant] _ IH]; [cbn; lia |].
  rewrite !count_pcs_cons.
  assert (Hp : 4 * inside p <= units_of p); [| lia].
  unfold inside, units_of.
  destruct p; cbn [inside_with default]; try lia.
  all: pose proof (proj1 (Forall_forall _ _) Hjobs _ (Hjob _ eq_refl)) as Hn.
  all: destruct (ipus_needed_in_range _ Hn) as (q & Hq & Hfour & _).
  all: rewrite (Hquant _ _ eq_refl) in Hq; injection Hq as ->; exact Hfour.
Qed.

End Stuck.

(** X22.  The semaphore cannot deadlock the workers when every job fits:
    if the quantum of every seeded job is at most [total_ipus], then in any
    reachable state in which no thread can move, no thread waits in
    [__enter__]; every thread has left its loop, has died, or is blocked in
    [get] on the empty queue, and all units are available.  If moreover no
    thread has died (and there is a worker or no job at all), the queue is
    empty and the join returns. *)
Theorem stuck_workers_do_not_wait_for_units
    (sys : os) (program_path : string) (jobs : list job) (total : Z)
    (w : world) (sched : list nat) (acts : list (nat * action)) (s : state) :
  Forall (fits total) jobs ->
  exec sys program_path sched (start jobs total w) = Some (acts, s) ->
  (forall i, step sys program_path i s = None) ->
  (forall i p, threads s !! i = Some p ->
     p = Finished \/ (exists e, p = Died e)
     \/ (p = AtGet /\ task_queue s = []))
  /\ available_ipus (ipu_semaphore s) = total
  /\ ((forall i e, threads s !! i <> Some (Died e)) ->
      jobs = [] \/ 0 < total ->
      task_queue s = [] /\ join_returns s = true).
Proof.
  intros Hfits Hexec Hstuck.
  pose proof (sound_exec _ _ _ _ _ _ _ _ Hexec)
    as (_ & Hts & _ & _ & Hcons & _).
  assert (Hnone : units_inside (threads s) = 0).
  { apply count_pcs_zero. intros i p Hp.
    destruct (stuck_thread _ _ _ _ _ (Hstuck i) Hp)
      as [-> | [[e ->] | [[-> _] | (j & n & -> & _)]]]; reflexivity. }
  assert (Hall : available_ipus (ipu_semaphore s) = total) by lia.
  assert (Hkinds : forall i p, threads s !! i = Some p ->
            p = Finished \/ (exists e, p = Died e)
            \/ (p = AtGet /\ task_queue s = [])).
  { intros i p Hp.
    destruct (stuck_thread _ _ _ _ _ (Hstuck i) Hp)
      as [-> | [[e ->] | [[-> Hq] | (j & n & -> & Henter)]]]; eauto.
    exfalso.
    destruct (Forall_lookup_1 _ _ _ _ Hts Hp) as [Hjob Hquant].
    pose proof (proj1 (Forall_forall _ _) Hfits _ (Hjob _ eq_refl) n
                  (Hquant _ _ eq_refl)) as Hle.
    unfold enter in Henter.
    destruct (Z.ltb_spec (available_ipus (ipu_semaphore s)) n);
      [lia | discriminate Henter]. }
  split; [exact Hkinds |]. split; [exact Hall |].
  intros Halive Hsome.
  pose proof (exec_invariant sys program_path (fun _ => attended)
                (attended_step sys program_path) sched [] _ _ _
                (attended_start jobs total w Hsome) Hexec) as Hatt.
  cbn beta in Hatt.
  assert (Hq : task_queue s = []).
  { destruct (task_queue s) as [| j q] eqn:Heq; [reflexivity |].
    destruct Hatt as (i & p & Hp & Hnot); [rewrite Heq; discriminate |].
    destruct (Hkinds i p Hp) as [-> | [[e ->] | [_ Hempty]]].
    - contradiction.
    - destruct (Halive i e Hp).
    - exact Hempty. }
  split; [exact Hq |].
  destruct (accounted_exec _ _ _ _ _ _ _ _ Hexec) as [_ Hflight].
  rewrite Hq, in_flight_none in Hflight.
  - unfold join_returns. apply Z.eqb_eq. cbn in Hflight. lia.
  - intros i p Hp.
    destruct (Hkinds i p Hp) as [-> | [[e ->] | [-> _]]];
      [reflexivity | destruct (Halive i e Hp) | reflexivity].
Qed.

Lemma stuck_workers_do_not_wait_for_units_witness :
  exists acts s,
    exec (os_exiting 0 "") "benchmark" [0; 1; 0; 0; 0; 0; 0; 0; 2; 3]%nat
         (start [hook_job] 4 empty_world) = Some (acts, s)
    /\ threads s = [Finished; AtGet; Finished; Finished]
    /\ available_ipus (ipu_semaphore s) = 4.
Proof.
  destruct (exec (os_exiting 0 "") "benchmark"
              [0; 1; 0; 0; 0; 0; 0; 0; 2; 3]%nat
              (start [hook_job] 4 empty_world))
    as [[acts s] |] eqn:Hexec; [| vm_compute in Hexec; discriminate].
  assert (Hts : threads s = [Finished; AtGet; Finished; Finished]
                /\ task_queue s = []).
  { vm_compute in Hexec. injection Hexec as _ <-. split; reflexivity. }
  destruct Hts as [Hts Hq].
  exists acts, s. split; [reflexivity |]. split; [exact Hts |].
  refine (proj1 (proj2 (stuck_workers_do_not_wait_for_units
                          _ _ _ _ _ _ _ _ _ Hexec _))).
  - apply Forall_singleton. intros q Hneeded.
    vm_compute in Hneeded. injection Hneeded as <-. lia.
  - clear Hexec. intros i. unfold step. rewrite Hts, Hq.
    destruct i as [| [| [| [| i]]]]; reflexivity.
Defined.

(** X23.  Every running job holds at least four units, so at most a quarter
    of [total_ipus] jobs run at the same time, however many threads there
    are: with a non-negative total and tile counts of at least 1 and below
    [2 ^ 1024], four times the number of threads inside the [with] block is
    at most the total, in every state the workers reach. *)
Theorem at_most_a_quarter_of_the_units_run_at_once
    (sys : os) (program_path : string) (jobs : list job) (total : Z)
    (w : world) (sched : list nat) (acts : list (nat * action)) (s : state) :
  0 <= total ->
  Forall (fun j => 1 <= numTiles j < float_range) jobs ->
  exec sys program_path sched (start jobs total w) = Some (acts, s) ->
  4 * count_pcs inside (threads s) <= total.
Proof.
  intros Htotal Hjobs Hexec.
  pose proof (sound_exec _ _ _ _ _ _ _ _ Hexec) as Hsound.
  pose proof Hsound as (_ & Hts & _ & _ & Hcons & Hnn).
  pose proof (units_inside_ge jobs (threads s) Hjobs Hts) as Hge.
  assert (Hsigns : Forall (fun j => 0 <= numTiles j) jobs).
  { apply (Forall_impl _ _ _ Hjobs). intros j Hj. lia. }
  specialize (Hnn Htotal Hsigns). lia.
Qed.

Lemma at_most_a_quarter_of_the_units_run_at_once_witness :
  exists acts s,
    exec (os_exiting 0 "") "benchmark" [0; 1; 0; 1; 0; 1; 0]%nat
         (start [hook_job; hook_job] 16 empty_world) = Some (acts, s)
    /\ count_pcs inside (threads s) = 2
    /\ 4 * count_pcs inside (threads s) <= 16.
Proof.
  destruct (exec (os_exiting 0 "") "benchmark" [0; 1; 0; 1; 0; 1; 0]%nat
              (start [hook_job; hook_job] 16 empty_world))
    as [[acts s] |] eqn:Hexec;
    [| vm_compute in Hexec; discriminate].
  exists acts, s. split; [reflexivity |]. split.
  - vm_compute in Hexec. injection Hexec as _ <-. reflexivity.
  - refine (at_most_a_quarter_of_the_units_run_at_once
              _ _ _ _ _ _ _ _ _ _ Hexec); [lia |].
    assert (Hhook : 1 <= numTiles hook_job < float_range).
    { cbn [numTiles hook_job]. unfold float_range. split; [lia |].
      apply (Z.lt_le_trans _ (2 ^ 13)); [lia |].
      apply Z.pow_le_mono_r; lia. }
    repeat (apply Forall_cons; split; [exact Hhook |]).
    apply Forall_nil_2.
Defined.
